(** * ADF41020 sweep controller: register generation and SPI transmission

  Shallow embedding of the Arduino sketch
  [ADF4ADF41020_SPI_SMALL_SWEEP_REG_GEN.ino] (the register-generating
  variant, followed in the same file by the variant with precalculated
  tables) and the properties its design document states about it.

  The sketch runs on an AVR board (it drives [DDRD]/[PORTD] directly):
  [int] is 16 bits, [long] is 32 bits, [byte] is 8 bits and [float] (as
  well as [double]) is IEEE 754 binary32. *)

From Stdlib Require Import ZArith Lia Bool String QArith Qround.
From Stdlib Require Import Floats.SpecFloat.
From stdpp Require Import base option list.

Local Open Scope Z_scope.

(** ** Machine integers of the AVR target *)

Module AVR.

Definition INT_MIN : Z := -32768.
Definition INT_MAX : Z := 32767.
Definition LONG_MIN : Z := -2147483648.
Definition LONG_MAX : Z := 2147483647.

Definition in_int (z : Z) : bool := (INT_MIN <=? z) && (z <=? INT_MAX).
Definition in_long (z : Z) : bool := (LONG_MIN <=? z) && (z <=? LONG_MAX).

(** [(byte)x]: conversion to an unsigned 8-bit value. *)
Definition to_byte (z : Z) : Z := z mod 256.

(** [lowByte(x)] is the Arduino macro [((uint8_t)((x) & 0xff))]. *)
Definition lowByte (z : Z) : Z := Z.land z 255.

(** [x >> k] on a [long]. *)
Definition shr (z : Z) (k : Z) : Z := Z.shiftr z k.

End AVR.

(** ** binary32 arithmetic

  The operations are the ones of the Standard Library's executable
  specification of IEEE 754 (round to nearest, ties to even), at the
  precision and exponent range of binary32. *)

Module F32.

Definition float : Type := spec_float.

Definition prec : Z := 24.
Definition emax : Z := 128.

Definition mul : float -> float -> float := SFmul prec emax.
Definition div : float -> float -> float := SFdiv prec emax.
Definition add : float -> float -> float := SFadd prec emax.

(** Conversion of an integer operand in a floating-point expression. *)
Definition of_int (z : Z) : float := binary_normalize prec emax z 0 false.

(** [pow(2, k)] for an integer [k]: the power of two itself, which every
    binary32 in range represents exactly. *)
Definition pow2 (k : Z) : float := binary_normalize prec emax 1 k false.

(** Truncation toward zero of a finite value; nothing for an infinity or
    a NaN. *)
Definition trunc (x : float) : option Z :=
  match x with
  | S754_zero _ => Some 0
  | S754_finite s m e =>
      Some (cond_Zopp s
              (match e with
               | Zneg p => Z.shiftr (Z.pos m) (Z.pos p)
               | _ => Z.shiftl (Z.pos m) e
               end))
  | _ => None
  end.

(** [(int)x] and [(long)x]: truncation toward zero; the conversion is
    undefined in C when the truncated value does not fit the type. *)
Definition to_int (x : float) : option Z :=
  z ← trunc x; if AVR.in_int z then Some z else None.

Definition to_long (x : float) : option Z :=
  z ← trunc x; if AVR.in_long z then Some z else None.

(** The rational number a finite binary32 stands for. *)
Definition to_Q (x : float) : option Q :=
  match x with
  | S754_zero _ => Some 0%Q
  | S754_finite s m e =>
      Some (inject_Z (cond_Zopp s (Z.pos m)) * Qpower 2 e)%Q
  | _ => None
  end.

End F32.

(** ** The sketch *)

Module Sketch.

Import AVR.

(** *** Compile-time constants (the [#define]s) *)

Definition DWELL_TIME : Z := 1000.
Definition SWEEP_PAUSE : Z := 0.
Definition PULSE_DURATION : Z := 500.
Definition LONG_DELAY : Z := 100.
Definition DO_LONG_DELAY : bool := false.
Definition RFInputFrequency : Z := 100.
Definition PFDFrequency : Z := 1250.

(** The frequency vector the sketch ships with, in MHz. *)
Definition freqVec : list Z :=
  [10415; 10460; 10505; 10550; 10595; 10640; 10685; 10730; 10775; 10820;
   10865; 10910; 10955; 11000; 11045; 11090; 11135; 11180; 11225; 11270;
   11315; 11360; 11405; 11450; 11495; 11540; 11585; 11630; 11675; 11720;
   11765; 11810; 11855; 11900; 11945; 11990; 12035; 12080; 12125; 12170;
   12215; 12260; 12305; 12350; 12395; 12440; 12485; 12530; 12575; 12620;
   12665; 12710; 12755; 12800; 12845; 12890; 12935; 12980; 13025; 13070].

(** *** Global variables

    Every array has [sizeof(freqVec)/sizeof(int)] elements; [freqVec]
    itself is never written and is passed around as a plain list. *)

Record Globals : Type := mkGlobals {
  N0 : list Z;  N1 : list Z;  N2 : Z;
  R2 : Z;  R1 : Z;  R0 : Z;
  R0A : list Z;  R1A : list Z;  R2A : list Z;
  F2 : Z;  F1 : Z;  F0 : Z;
  F0A : list Z;  F1A : list Z;  F2A : list Z
}.

(** The globals at program start: the arrays are zero-initialised
    ([= {}]), the scalars without initialiser are zero as every static
    object is, and [N2] is initialised to [0x00]. *)
Definition initial (n : nat) : Globals :=
  let z := replicate n 0 in
  mkGlobals z z 0  0 0 0  z z z  0 0 0  z z z.

(** [a[i] = v] on a global array; writing outside the array is undefined. *)
Definition store (a : list Z) (i v : Z) : option (list Z) :=
  if (0 <=? i) && (i <? Z.of_nat (length a))
  then Some (<[Z.to_nat i := v]> a) else None.

(** [a[i]] read from a global array. *)
Definition load (a : list Z) (i : Z) : option Z :=
  if 0 <=? i then a !! Z.to_nat i else None.

(** *** calcRegisters *)

(** The counter values [P], [R], [N], [B], [A] of lines 317-328. *)
Record Counters : Type := mkCounters {
  cP : Z;  cR : Z;  cN : Z;  cB : Z;  cA : Z
}.

Definition PrescalerBoxIndex : Z := 1.
Definition ChargePumpSetting1SelectedIndex : Z := 3.
Definition ChargePumpSetting2SelectedIndex : Z := 3.
Definition ChargePumpGainBoxSelectedIndex : Z := 0.
Definition ChargePump3StateBoxSelectedIndex : Z := 0.
Definition FastLockBoxSelectedIndex : Z := 0.
Definition TimeoutBoxSelectedIndex : Z := 0.
Definition PhaseDetectorPolarityBoxSelectedIndex : Z := 0.
Definition CounterResetBoxSelectedIndex : Z := 0.
Definition LockDetectPrecisionBoxSelectedIndex : Z := 0.
Definition PowerDownBoxSelectedIndex : Z := 0.
Definition ABPWBoxSelectedIndex : Z := 0.
Definition SyncBoxSelectedIndex : Z := 0.
Definition DelayBoxSelectedIndex : Z := 0.
Definition MuxoutBoxSelectedIndex : Z := 0.
Definition TestmodesBoxSelectedIndex : Z := 1.

Definition counters (RFOutFreqBox RefFreqBox PFDFreqBox : F32.float)
  : option Counters :=
  let RFout := RFOutFreqBox in
  let REFin := RefFreqBox in
  let PFDFreq := PFDFreqBox in
  let RFout := F32.div RFout (F32.of_int 4) in
  p ← F32.to_int (F32.pow2 PrescalerBoxIndex);
  let P := p * 8 in
  R ← F32.to_int (F32.div (F32.mul REFin (F32.of_int 1000)) PFDFreq);
  N ← F32.to_int (F32.div (F32.mul RFout (F32.of_int 1000)) PFDFreq);
  let B := Z.quot N P in
  let A := N - B * P in
  Some (mkCounters P R N B A).

(** The three [float Reg[]] values of lines 331-359, from the counters. *)
Definition registers (c : Counters) : F32.float * F32.float * F32.float :=
  let '(R, B, A) := (cR c, cB c, cA c) in
  let Prescaler := to_byte PrescalerBoxIndex in
  let CPsetting1 := to_byte ChargePumpSetting1SelectedIndex in
  let CPsetting2 := to_byte ChargePumpSetting2SelectedIndex in
  let CPGain := to_byte ChargePumpGainBoxSelectedIndex in
  let CP3state := to_byte ChargePump3StateBoxSelectedIndex in
  let Fastlock := to_byte FastLockBoxSelectedIndex in
  let Fastlock := if Fastlock =? 2 then to_byte (Fastlock + 1) else Fastlock in
  let Timeout := to_byte TimeoutBoxSelectedIndex in
  let PDPolarity := to_byte PhaseDetectorPolarityBoxSelectedIndex in
  let CounterReset := to_byte CounterResetBoxSelectedIndex in
  let LDP := to_byte LockDetectPrecisionBoxSelectedIndex in
  let Powerdown := to_byte PowerDownBoxSelectedIndex in
  let Powerdown := if Powerdown =? 2 then to_byte (Powerdown + 1) else Powerdown in
  let ABPW := to_byte ABPWBoxSelectedIndex in
  let Sync := to_byte SyncBoxSelectedIndex in
  let Delay := to_byte DelayBoxSelectedIndex in
  let Muxout := to_byte MuxoutBoxSelectedIndex in
  let Testmodes := to_byte TestmodesBoxSelectedIndex in
  let f := F32.of_int in
  let pow2 := F32.pow2 in
  let '(add, mul) := (F32.add, F32.mul) in
  let Reg0 :=
    add (add (add (pow2 23) (pow2 20)) (mul (f Testmodes) (pow2 16)))
        (mul (f (Z.land R 0x3FFF)) (pow2 2)) in
  let Reg1 :=
    add (add (add (mul (f CPGain) (pow2 21))
                  (mul (f (Z.land B 0x1FFF)) (pow2 8)))
             (mul (f (Z.land A 0x3F)) (pow2 2)))
        (f 1) in
  let Reg2 :=
    add (add (add (add (add (add (add (add (add (add
      (mul (f Prescaler) (pow2 22))
      (mul (f CPsetting2) (pow2 18)))
      (mul (f CPsetting1) (pow2 15)))
      (mul (f Timeout) (pow2 11)))
      (mul (f Fastlock) (pow2 9)))
      (mul (f CP3state) (pow2 8)))
      (mul (f PDPolarity) (pow2 7)))
      (mul (f Muxout) (pow2 4)))
      (mul (f Powerdown) (pow2 3)))
      (mul (f CounterReset) (pow2 2)))
      (f 2) in
  (Reg0, Reg1, Reg2).

(** The register values as [long]s: every use of [Reg[k]] in the stores
    of lines 361-385 goes through the cast [(long)Reg[k]]. *)
Record Words : Type := mkWords { wR : Z;  wN : Z;  wF : Z }.

Definition words (c : Counters) : option Words :=
  let '(Reg0, Reg1, Reg2) := registers c in
  r ← F32.to_long Reg0;
  n ← F32.to_long Reg1;
  f ← F32.to_long Reg2;
  Some (mkWords r n f).

Definition calcRegisters (RFOutFreqBox RefFreqBox PFDFreqBox : F32.float)
    (i : Z) (g : Globals) : option Globals :=
  c ← counters RFOutFreqBox RefFreqBox PFDFreqBox;
  w ← words c;
  N0' ← store (N0 g) i (lowByte (wN w));
  N1' ← store (N1 g) i (lowByte (shr (wN w) 8));
  let '(R0', R1', R2', F0', F1', F2') :=
    if i =? 0
    then (lowByte (wR w), lowByte (shr (wR w) 8), lowByte (shr (wR w) 16),
          lowByte (wF w), lowByte (shr (wF w) 8), lowByte (shr (wF w) 16))
    else (R0 g, R1 g, R2 g, F0 g, F1 g, F2 g) in
  R0A' ← store (R0A g) i (lowByte (wR w));
  R1A' ← store (R1A g) i (lowByte (shr (wR w) 8));
  R2A' ← store (R2A g) i (lowByte (shr (wR w) 16));
  Some {| N0 := N0'; N1 := N1'; N2 := N2 g;
          R2 := R2'; R1 := R1'; R0 := R0';
          R0A := R0A'; R1A := R1A'; R2A := R2A';
          F2 := F2'; F1 := F1'; F0 := F0';
          F0A := F0A g; F1A := F1A g; F2A := F2A g |}.

(** *** Observable effects

    The sketch acts on the outside world through port D (latch enable
    [LE] on pin 7, sync indicator [SI] on pin 6), the SPI peripheral, the
    serial console and busy-wait delays.  A run is the list of these
    effects in program order. *)

Inductive BitOrder : Type := LSBFIRST | MSBFIRST.
Inductive DataMode : Type := SPI_MODE0 | SPI_MODE1 | SPI_MODE2 | SPI_MODE3.
Inductive ClockDivider : Type := SPI_CLOCK_DIV2 | SPI_CLOCK_DIV4.

Inductive Event : Type :=
| DDRD_or (mask : Z)                  (* DDRD = DDRD | mask *)
| PORTD_write (v : Z)                 (* PORTD = v *)
| Serial_begin (baud : Z)
| Serial_println (s : string)
| SPI_begin
| SPI_setBitOrder (o : BitOrder)
| SPI_setDataMode (m : DataMode)
| SPI_setClockDivider (d : ClockDivider)
| SPI_transfer (b : Z)
| delayMicroseconds (us : Z)
| delay (ms : Z).

Definition B00000000 : Z := 0.
Definition B10000000 : Z := 128.
Definition B11000000 : Z := 192.

(** The two control lines as bits of a value written to [PORTD]. *)
Definition LE (v : Z) : bool := Z.testbit v 7.
Definition SI (v : Z) : bool := Z.testbit v 6.

(** An effect the chip can see: a byte shifted out, or a write to port D
    that raises latch enable or sync. *)
Definition bus_output (ev : Event) : bool :=
  match ev with
  | SPI_transfer _ => true
  | PORTD_write v => LE v || SI v
  | _ => false
  end.

Definition is_transfer (ev : Event) : bool :=
  match ev with SPI_transfer _ => true | _ => false end.

(** *** delayer *)

Definition delayer (delval : Z) : list Event :=
  (if DO_LONG_DELAY then [delay LONG_DELAY] else [])
  ++ [delayMicroseconds delval].

(** *** SPIwrite24bitRegister *)

Definition SPIwrite24bitRegister (b23to16 b15to8 b7to0 : Z) (NewFrame : bool)
  : list Event :=
  [SPI_transfer b23to16; SPI_transfer b15to8; SPI_transfer b7to0]
  ++ [if NewFrame then PORTD_write B11000000 else PORTD_write B10000000]
  ++ [delayMicroseconds PULSE_DURATION]
  ++ [PORTD_write B00000000]
  ++ delayer (DWELL_TIME - PULSE_DURATION).

(** *** setup *)

(** How a call of [setup] ends: it returns, it enters one of the two
    [while(true){ delay(1); }] loops, or its behaviour is undefined. *)
Inductive Outcome : Type :=
| Returned (g : Globals)
| Halted
| Undefined.

Definition RCounter_message : string :=
  "RCounter changed during sweep. This is not yet supported. Execution halted".
Definition FunctionLatch_message : string :=
  "Function Latch changed during sweep. This is not yet supported. Execution halted".

(** [x0 != a0[i] || x1 != a1[i] || x2 != a2[i]] *)
Definition changed (x0 x1 x2 : Z) (a0 a1 a2 : list Z) (i : Z) : option bool :=
  y0 ← load a0 i; y1 ← load a1 i; y2 ← load a2 i;
  Some (negb (x0 =? y0) || negb (x1 =? y1) || negb (x2 =? y2)).

(** The [for] loop of lines 211-229, with [k] iterations left to run. *)
Fixpoint populate (freqs : list Z) (k : nat) (i : Z) (g : Globals)
  : list Event * Outcome :=
  match k with
  | O => ([], Returned g)
  | S k' =>
      match
        f ← load freqs i;
        calcRegisters (F32.of_int f) (F32.of_int RFInputFrequency)
          (F32.of_int PFDFrequency) i g
      with
      | None => ([], Undefined)
      | Some g1 =>
          match changed (R0 g1) (R1 g1) (R2 g1) (R0A g1) (R1A g1) (R2A g1) i with
          | None => ([], Undefined)
          | Some true => ([Serial_println RCounter_message], Halted)
          | Some false =>
              match
                changed (F0 g1) (F1 g1) (F2 g1) (F0A g1) (F1A g1) (F2A g1) i
              with
              | None => ([], Undefined)
              | Some true => ([Serial_println FunctionLatch_message], Halted)
              | Some false => populate freqs k' (i + 1) g1
              end
          end
      end
  end.

(** Lines 231-271: SPI configuration, then the function latch and the R
    latch, once each. *)
Definition program_latches (g : Globals) : list Event :=
  [SPI_begin; SPI_setBitOrder MSBFIRST; SPI_setDataMode SPI_MODE0;
   SPI_setClockDivider SPI_CLOCK_DIV2]
  ++ delayer SWEEP_PAUSE
  ++ [SPI_transfer (F2 g); SPI_transfer (F1 g); SPI_transfer (F0 g)]
  ++ [PORTD_write B10000000; delayMicroseconds PULSE_DURATION;
      PORTD_write B00000000]
  ++ delayer (DWELL_TIME - PULSE_DURATION)
  ++ [SPI_transfer (R2 g); SPI_transfer (R1 g); SPI_transfer (R0 g)]
  ++ [PORTD_write B10000000; delayMicroseconds PULSE_DURATION;
      PORTD_write B00000000]
  ++ delayer (DWELL_TIME - PULSE_DURATION).

(** [setup], started with the globals [g0] and the frequency vector
    [freqs]. *)
Definition setup_from (g0 : Globals) (freqs : list Z) : list Event * Outcome :=
  let start := [DDRD_or B11000000; PORTD_write B00000000; Serial_begin 9600] in
  match populate freqs (length freqs) 0 g0 with
  | (tr, Returned g) => (start ++ tr ++ program_latches g, Returned g)
  | (tr, o) => (start ++ tr, o)
  end.

(** [setup] as the program runs it: on the initial globals. *)
Definition setup (freqs : list Z) : list Event * Outcome :=
  setup_from (initial (length freqs)) freqs.

(** *** loop *)

(** The [for] loop of lines 433-439, with [k] iterations left to run. *)
Fixpoint sweep (k : nat) (i : Z) (g : Globals) : option (list Event) :=
  match k with
  | O => Some []
  | S k' =>
      n1 ← load (N1 g) i;
      n0 ← load (N0 g) i;
      rest ← sweep k' (i + 1) g;
      Some ((if i =? 0
             then SPIwrite24bitRegister (N2 g) n1 n0 true
             else SPIwrite24bitRegister (N2 g) n1 n0 false) ++ rest)
  end.

(** One call of [loop]; nothing when it reads outside an array. *)
Definition loop (g : Globals) : option (list Event) :=
  body ← sweep (length (N0 g)) 0 g;
  n1 ← load (N1 g) 0;
  n0 ← load (N0 g) 0;
  Some (body ++ SPIwrite24bitRegister (N2 g) n1 n0 false ++ delayer SWEEP_PAUSE).

(** *** The whole program

    The Arduino core calls [setup] once and then [loop] for ever.
    [run_from g0 freqs n] is the run up to the end of the [n]-th pass
    of whichever endless loop the program is in: [n] calls of [loop]
    when [setup] returned, [n] rounds of the halt loop when it did not. *)

Fixpoint passes (n : nat) (g : Globals) : option (list Event) :=
  match n with
  | O => Some []
  | S k => l ← loop g; r ← passes k g; Some (l ++ r)
  end.

Definition run_from (g0 : Globals) (freqs : list Z) (n : nat)
  : option (list Event) :=
  match setup_from g0 freqs with
  | (tr, Returned g) => r ← passes n g; Some (tr ++ r)
  | (tr, Halted) => Some (tr ++ replicate n (delay 1))
  | (tr, Undefined) => None
  end.

Definition run (freqs : list Z) (n : nat) : option (list Event) :=
  run_from (initial (length freqs)) freqs n.

(** *** The SPI peripheral

    [SPI.transfer] shifts its byte out on MOSI, one bit per clock, in the
    configured bit order; the data mode fixes the idle level of the clock
    and the edge on which the receiver samples, as the comments of
    [setup] say for mode 0. *)

Record SpiConfig : Type := mkSpi { bitOrder : BitOrder; dataMode : DataMode }.

(** The configuration in force after a run: the last settings win (the
    hardware starts MSB first in mode 0). *)
Definition configure (c : SpiConfig) (ev : Event) : SpiConfig :=
  match ev with
  | SPI_setBitOrder o => mkSpi o (dataMode c)
  | SPI_setDataMode m => mkSpi (bitOrder c) m
  | _ => c
  end.

Definition spi_config (tr : list Event) : SpiConfig :=
  fold_left configure tr (mkSpi MSBFIRST SPI_MODE0).

Definition clock_idle_low (m : DataMode) : bool :=
  match m with SPI_MODE0 | SPI_MODE1 => true | _ => false end.
Definition sample_on_rising_edge (m : DataMode) : bool :=
  match m with SPI_MODE0 | SPI_MODE3 => true | _ => false end.

(** The bits of one byte in the order they appear on the wire. *)
Definition shift_out (o : BitOrder) (b : Z) : list bool :=
  let msb_first := map (Z.testbit b) [7; 6; 5; 4; 3; 2; 1; 0] in
  match o with MSBFIRST => msb_first | LSBFIRST => rev msb_first end.

(** The bits a run puts on the wire. *)
Definition wire (o : BitOrder) (tr : list Event) : list bool :=
  flat_map (fun ev => match ev with
                      | SPI_transfer b => shift_out o b
                      | _ => []
                      end) tr.

(** *** Transmitter calls

  A call of [SPIwrite24bitRegister] as a value: the three bytes and the
  [NewFrame] flag. *)
Definition Call : Type := Z * Z * Z * bool.

Definition transmit (call : Call) : list Event :=
  let '(b23to16, b15to8, b7to0, NewFrame) := call in
  SPIwrite24bitRegister b23to16 b15to8 b7to0 NewFrame.

(** The feedback words of the sweep table, in table order. *)
Definition table (g : Globals) : list (Z * Z * Z) :=
  zip_with (fun n1 n0 => (N2 g, n1, n0)) (N1 g) (N0 g).

(** The 24-bit word made of three bytes. *)
Definition word24 (b23to16 b15to8 b7to0 : Z) : Z :=
  Z.lor (Z.shiftl b23to16 16) (Z.lor (Z.shiftl b15to8 8) b7to0).

(** *** The register words as integers

    What lines 357-359 compute when the [float] arithmetic is exact. *)
Definition word_R (c : Counters) : Z := 0x910000 + Z.land (cR c) 0x3FFF * 4.
Definition word_N (c : Counters) : Z :=
  Z.land (cB c) 0x1FFF * 256 + Z.land (cA c) 0x3F * 4 + 1.
Definition word_F : Z := 0x4D8002.

(** *** Reading the words back

    The fields of the reference and feedback words, read at the bit
    offsets lines 357-358 write them to. *)
Definition field_R (w : Z) : Z := Z.land (shr w 2) 0x3FFF.
Definition field_B (w : Z) : Z := Z.land (shr w 8) 0x1FFF.
Definition field_A (w : Z) : Z := Z.land (shr w 2) 0x3F.

(** *** Bytes and time *)



(** The time a run spends in [delayMicroseconds] and [delay], in
    microseconds. *)
Definition wait_us (ev : Event) : Z :=
  match ev with
  | delayMicroseconds us => us
  | delay ms => 1000 * ms
  | _ => 0
  end.

Definition elapsed_us (tr : list Event) : Z :=
  fold_right (fun ev acc => wait_us ev + acc) 0 tr.

(** The writes to port D that raise latch enable, and those that raise
    sync. *)
Definition raises_LE (ev : Event) : bool :=
  match ev with PORTD_write v => LE v | _ => false end.
Definition raises_SI (ev : Event) : bool :=
  match ev with PORTD_write v => SI v | _ => false end.

Definition count (p : Event -> bool) (tr : list Event) : nat :=
  length (List.filter p tr).

End Sketch.


(** ** The variant with precalculated tables

  The second sketch of the file carries the latch bytes as literals;
  its N counter tables are the reference data of the design document. *)

Module Precalculated.

Definition R2 : Z := 0x91.
Definition R1 : Z := 0x01.
Definition R0 : Z := 0x40.

Definition F2 : Z := 0x4D.
Definition F1 : Z := 0x80.
Definition F0 : Z := 0x02.

Definition N2 : Z := 0x00.

Definition N1 : list Z :=
  [0x83; 0x84; 0x85; 0x87; 0x88; 0x89; 0x8A; 0x8C; 0x8D; 0x8E; 0x8F; 0x91;
   0x92; 0x93; 0x94; 0x96; 0x97; 0x98; 0x99; 0x9B; 0x9C; 0x9D; 0x9E; 0xA0;
   0xA1; 0xA2].

Definition N0 : list Z :=
  [0x11; 0x21; 0x31; 0x01; 0x11; 0x21; 0x31; 0x01; 0x11; 0x21; 0x31; 0x01;
   0x11; 0x21; 0x31; 0x01; 0x11; 0x21; 0x31; 0x01; 0x11; 0x21; 0x31; 0x01;
   0x11; 0x21].

(** The second sketch's own constants and functions.  Its [delayer] takes
    a second argument and its transmitter waits the whole
    [TRANSMIT_DELAY] after the pulse. *)

Definition LE_DURATION : Z := 500.
Definition TRANSMIT_DELAY : Z := 1000.
Definition SWEEP_DELAY : Z := 0.
Definition DELAY_IS_MICROSECONDS : bool := true.

Definition delayer (delval : Z) (delayType : bool) : list Sketch.Event :=
  if DELAY_IS_MICROSECONDS
  then [Sketch.delayMicroseconds delval]
  else [Sketch.delay delval].

Definition SPIwrite24bitRegister (b23to16 b15to8 b7to0 : Z) (NewFrame : bool)
  : list Sketch.Event :=
  [Sketch.SPI_transfer b23to16; Sketch.SPI_transfer b15to8;
   Sketch.SPI_transfer b7to0]
  ++ [if NewFrame then Sketch.PORTD_write Sketch.B11000000
      else Sketch.PORTD_write Sketch.B10000000]
  ++ [Sketch.delayMicroseconds LE_DURATION]
  ++ [Sketch.PORTD_write Sketch.B00000000]
  ++ delayer TRANSMIT_DELAY DELAY_IS_MICROSECONDS.

Definition setup : list Sketch.Event :=
  [Sketch.DDRD_or Sketch.B11000000; Sketch.PORTD_write Sketch.B00000000;
   Sketch.SPI_begin; Sketch.SPI_setBitOrder Sketch.MSBFIRST;
   Sketch.SPI_setDataMode Sketch.SPI_MODE0;
   Sketch.SPI_setClockDivider Sketch.SPI_CLOCK_DIV2]
  ++ delayer SWEEP_DELAY DELAY_IS_MICROSECONDS
  ++ [Sketch.SPI_transfer F2; Sketch.SPI_transfer F1; Sketch.SPI_transfer F0]
  ++ [Sketch.PORTD_write Sketch.B10000000; Sketch.delayMicroseconds LE_DURATION;
      Sketch.PORTD_write Sketch.B00000000]
  ++ delayer TRANSMIT_DELAY DELAY_IS_MICROSECONDS
  ++ [Sketch.SPI_transfer R2; Sketch.SPI_transfer R1; Sketch.SPI_transfer R0]
  ++ [Sketch.PORTD_write Sketch.B10000000; Sketch.delayMicroseconds LE_DURATION;
      Sketch.PORTD_write Sketch.B00000000]
  ++ delayer TRANSMIT_DELAY DELAY_IS_MICROSECONDS.

(** The [for] loop of [loop] over tables [n1s] and [n0s], with [k]
    iterations left to run; [loop] runs it [sizeof(N0)] times. *)
Fixpoint sweep (n1s n0s : list Z) (k : nat) (i : Z) : option (list Sketch.Event) :=
  match k with
  | O => Some []
  | S k' =>
      n1 ← Sketch.load n1s i;
      n0 ← Sketch.load n0s i;
      rest ← sweep n1s n0s k' (i + 1);
      Some ((if i =? 0
             then SPIwrite24bitRegister N2 n1 n0 true
             else SPIwrite24bitRegister N2 n1 n0 false) ++ rest)
  end.

Definition loop_over (n1s n0s : list Z) : option (list Sketch.Event) :=
  body ← sweep n1s n0s (length n0s) 0;
  Some (body ++ delayer SWEEP_DELAY DELAY_IS_MICROSECONDS).

Definition loop : option (list Sketch.Event) := loop_over N1 N0.

(** A transmitter call of this variant as a value, and the calls of one
    pass over a table: every entry in order, sync on the first only. *)
Definition transmit (call : Sketch.Call) : list Sketch.Event :=
  let '(b23to16, b15to8, b7to0, NewFrame) := call in
  SPIwrite24bitRegister b23to16 b15to8 b7to0 NewFrame.

Definition pass (table : list (Z * Z * Z)) : list Sketch.Call :=
  match table with
  | [] => []
  | first :: rest => (first, true) :: map (fun w => (w, false)) rest
  end.

(** The frequencies this variant's tables were calculated for. *)
Definition frequencies : list Z :=
  map (fun k => 10500 + 100 * Z.of_nat k) (seq 0 26).

End Precalculated.

(** ** The design document's formulas *)

Module Spec.

(** The counter values of section 4.1, over the rationals:
    [effectiveOut = targetFreq / 4], [P = 2^prescalerIndex * 8],
    [R = floor(refFreq*1000 / pfdFreq)],
    [N = floor(effectiveOut*1000 / pfdFreq)], [B = floor(N / P)],
    [A = N - B*P]. *)
Definition counters (targetFreq refFreq pfdFreq : Q) (prescalerIndex : Z)
  : Sketch.Counters :=
  let effectiveOut := (targetFreq / 4)%Q in
  let P := 2 ^ prescalerIndex * 8 in
  let R := Qfloor (refFreq * 1000 / pfdFreq)%Q in
  let N := Qfloor (effectiveOut * 1000 / pfdFreq)%Q in
  let B := N / P in
  let A := N - B * P in
  Sketch.mkCounters P R N B A.

(** One pass of the scheduler over a table of feedback words: every
    entry in order with sync on the first only, then the first entry
    again without sync.  Each element is a call of the transmitter:
    most significant, middle and least significant byte, sync flag. *)
Definition pass (table : list (Z * Z * Z)) : list (Z * Z * Z * bool) :=
  match table with
  | [] => []
  | first :: rest =>
      (first, true) :: map (fun w => (w, false)) rest ++ [(first, false)]
  end.

End Spec.

(** * Properties *)

(** ** Exact integer arithmetic in binary32

  The register values are sums of products of small non-negative
  integers; all of them stay below [2^24], where binary32 arithmetic is
  exact.  [Fexact x z] says that the float [x] stands for the integer [z]. *)

Module F32Facts.

Import F32.

Definition Fexact (x : float) (z : Z) : Prop :=
  match x with
  | S754_zero _ => z = 0
  | S754_finite false m e => e <= 0 /\ Z.pos m = z * 2 ^ (- e)
  | _ => False
  end.

(** [Fcanon x z]: [x] is the normalised binary32 of the positive integer
    [z], with a mantissa of exactly 24 digits. *)
Definition Fcanon (x : float) (z : Z) : Prop :=
  exists m e,
    x = S754_finite false m e
    /\ Z.pos (digits2_pos m) = 24 /\ e <= 0 /\ Z.pos m = z * 2 ^ (- e).

Lemma digits2_size (m : positive) : digits2_pos m = Pos.size m.
Proof. induction m; simpl; congruence. Qed.

Lemma digits2_bounds (m : positive) :
  2 ^ (Z.pos (digits2_pos m) - 1) <= Z.pos m < 2 ^ Z.pos (digits2_pos m).
Proof.
  induction m as [m IH | m IH | ]; simpl digits2_pos.
  - rewrite Pos2Z.inj_succ.
    replace (Z.succ (Z.pos (digits2_pos m)) - 1)
      with (Z.succ (Z.pos (digits2_pos m) - 1)) by lia.
    rewrite !Z.pow_succ_r by lia. lia.
  - rewrite Pos2Z.inj_succ.
    replace (Z.succ (Z.pos (digits2_pos m)) - 1)
      with (Z.succ (Z.pos (digits2_pos m) - 1)) by lia.
    rewrite !Z.pow_succ_r by lia. lia.
  - simpl. lia.
Qed.

(** The number of digits of a positive number is fixed by its bounds. *)
Lemma digits2_unique (m : positive) (d : Z) :
  2 ^ (d - 1) <= Z.pos m < 2 ^ d -> Z.pos (digits2_pos m) = d.
Proof.
  intros [Hlo Hhi]. pose proof (digits2_bounds m) as [Blo Bhi].
  set (k := Z.pos (digits2_pos m)) in *.
  assert (0 < k) by (subst k; lia).
  destruct (Z.lt_trichotomy k d) as [Hlt | [Heq | Hgt]]; [ | exact Heq | ].
  - assert (2 ^ k <= 2 ^ (d - 1)) by (apply Z.pow_le_mono_r; lia). lia.
  - assert (d <= 0 \/ 0 < d) as [Hd | Hd] by lia.
    + assert (2 ^ d <= 2 ^ 0) by (apply Z.pow_le_mono_r_iff; lia ||
        (destruct (Z.eq_dec d 0); [subst; lia |
         rewrite Z.pow_neg_r by lia; simpl; lia])).
      simpl in *. lia.
    + assert (2 ^ d <= 2 ^ (k - 1)) by (apply Z.pow_le_mono_r; lia). lia.
Qed.

Lemma iter_pos_nat {A} (f : A -> A) (n : positive) (x : A) :
  SpecFloat.iter_pos f n x = Nat.iter (Pos.to_nat n) f x.
Proof.
  revert x. induction n as [n IH | n IH | ]; intros x; simpl SpecFloat.iter_pos.
  - rewrite !IH, Pos2Nat.inj_xI.
    replace (S (2 * Pos.to_nat n))
      with (Pos.to_nat n + (Pos.to_nat n + 1))%nat by lia.
    rewrite !Nat.iter_add. reflexivity.
  - rewrite !IH, Pos2Nat.inj_xO.
    replace (2 * Pos.to_nat n)%nat with (Pos.to_nat n + Pos.to_nat n)%nat by lia.
    rewrite Nat.iter_add. reflexivity.
  - reflexivity.
Qed.

Lemma shr_1_even (z : Z) :
  0 < z ->
  shr_1 (Build_shr_record (2 * z) false false) = Build_shr_record z false false.
Proof. destruct z; try lia. reflexivity. Qed.

Lemma shr_iter_exact (k : nat) (q : Z) :
  0 < q ->
  Nat.iter k shr_1 (Build_shr_record (q * 2 ^ Z.of_nat k) false false)
  = Build_shr_record q false false.
Proof.
  intros Hq. induction k as [ | k IH].
  - simpl. f_equal. lia.
  - rewrite Nat.iter_succ_r, Nat2Z.inj_succ, Z.pow_succ_r by lia.
    replace (q * (2 * 2 ^ Z.of_nat k)) with (2 * (q * 2 ^ Z.of_nat k)) by lia.
    rewrite shr_1_even; [exact IH | ].
    apply Z.mul_pos_pos; [lia | apply Z.pow_pos_nonneg; lia].
Qed.

(** What the premises of exactness say about the size of the mantissa. *)
Lemma exact_digits (m : positive) (e v : Z) :
  e <= 0 -> Z.pos m = v * 2 ^ (- e) -> v < 2 ^ 24 ->
  0 < v /\ 1 <= Z.pos (digits2_pos m) + e <= 24.
Proof.
  intros He Hm Hv.
  pose proof (digits2_bounds m) as [Blo Bhi].
  set (d := Z.pos (digits2_pos m)) in *.
  assert (0 < d) by (subst d; lia).
  assert (Hp : 0 < 2 ^ (- e)) by (apply Z.pow_pos_nonneg; lia).
  assert (Hv0 : 0 < v) by nia.
  split; [exact Hv0 | split].
  - destruct (Z.lt_ge_cases (d + e) 1) as [Hlt | ]; [ | lia].
    assert (2 ^ d <= 2 ^ (- e)) by (apply Z.pow_le_mono_r; lia). nia.
  - destruct (Z.lt_ge_cases 24 (d + e)) as [Hlt | ]; [ | lia].
    assert (2 ^ (24 - e) <= 2 ^ (d - 1)) by (apply Z.pow_le_mono_r; lia).
    assert (2 ^ (24 - e) = 2 ^ 24 * 2 ^ (- e))
      by (rewrite <- Z.pow_add_r by lia; f_equal; lia).
    nia.
Qed.

(** A mantissa of at most 24 digits is left alone. *)
Lemma shr_fexp_small (m : positive) (e : Z) :
  Z.pos (digits2_pos m) <= 24 -> -125 <= Z.pos (digits2_pos m) + e ->
  shr_fexp prec emax (Z.pos m) e loc_Exact
  = (Build_shr_record (Z.pos m) false false, e).
Proof.
  intros Hd He. unfold shr_fexp, fexp, emin, prec, emax, Zdigits2.
  rewrite Z.max_l by lia. simpl shr_record_of_loc.
  destruct (Z.pos (digits2_pos m) + e - 24 - e) eqn:E; try reflexivity. lia.
Qed.

(** A longer mantissa that stands for an integer below [2^24] ends in
    zeros, and is shifted down to 24 digits without loss. *)
Lemma shr_fexp_big (m : positive) (e v : Z) :
  e <= 0 -> Z.pos m = v * 2 ^ (- e) -> v < 2 ^ 24 ->
  24 < Z.pos (digits2_pos m) ->
  exists q : positive,
    shr_fexp prec emax (Z.pos m) e loc_Exact
    = (Build_shr_record (Z.pos q) false false, e + (Z.pos (digits2_pos m) - 24))
    /\ Z.pos q = v * 2 ^ (- (e + (Z.pos (digits2_pos m) - 24)))
    /\ Z.pos (digits2_pos q) = 24.
Proof.
  intros He Hm Hv Hd.
  destruct (exact_digits m e v He Hm Hv) as (Hv0 & Hlo & Hhi).
  pose proof (digits2_bounds m) as [Blo Bhi].
  set (d := Z.pos (digits2_pos m)) in *.
  set (n := d - 24). assert (Hn : 0 < n <= - e) by (subst n; lia).
  assert (Hsplit : 2 ^ (- e) = 2 ^ (- (e + n)) * 2 ^ n)
    by (rewrite <- Z.pow_add_r by lia; f_equal; lia).
  assert (Hq0 : 0 < v * 2 ^ (- (e + n)))
    by (apply Z.mul_pos_pos; [lia | apply Z.pow_pos_nonneg; lia]).
  destruct (v * 2 ^ (- (e + n))) as [ | q | ] eqn:Eq; try lia.
  exists q. split; [ | split].
  - unfold shr_fexp, fexp, emin, prec, emax, Zdigits2. fold d.
    rewrite Z.max_l by lia. simpl shr_record_of_loc.
    replace (d + e - 24 - e) with n by (subst n; lia).
    unfold shr. destruct n as [ | p | ] eqn:En; try lia.
    rewrite iter_pos_nat. f_equal.
    rewrite Hm, Hsplit, Z.mul_assoc, Eq.
    rewrite <- (positive_nat_Z p). apply shr_iter_exact. lia.
  - reflexivity.
  - apply digits2_unique. rewrite <- Eq.
    assert (Hn0 : 0 < 2 ^ n) by (apply Z.pow_pos_nonneg; lia).
    assert (2 ^ (d - 1) = 2 ^ (24 - 1) * 2 ^ n)
      by (rewrite <- Z.pow_add_r by lia; f_equal; subst n; lia).
    assert (2 ^ d = 2 ^ 24 * 2 ^ n)
      by (rewrite <- Z.pow_add_r by lia; f_equal; subst n; lia).
    rewrite Hm, Hsplit, Z.mul_assoc in Blo, Bhi. nia.
Qed.

(** Rounding an exactly located integer below [2^24] changes nothing. *)
Lemma round_aux_exact (m : positive) (e v : Z) :
  e <= 0 -> Z.pos m = v * 2 ^ (- e) -> v < 2 ^ 24 ->
  Fexact (binary_round_aux prec emax false (Z.pos m) e loc_Exact) v.
Proof.
  intros He Hm Hv.
  destruct (exact_digits m e v He Hm Hv) as (Hv0 & Hlo & Hhi).
  unfold binary_round_aux.
  destruct (Z_le_gt_dec (Z.pos (digits2_pos m)) 24) as [Hd | Hd].
  - rewrite (shr_fexp_small m e Hd ltac:(lia)). simpl shr_m. simpl loc_of_shr_record.
    simpl round_nearest_even. rewrite (shr_fexp_small m e Hd ltac:(lia)). simpl shr_m.
    replace (e <=? emax - prec) with true
      by (symmetry; apply Z.leb_le; unfold emax, prec; lia).
    simpl. auto.
  - destruct (shr_fexp_big m e v He Hm Hv) as (q & Hs & Hq & Hdq); [lia | ].
    rewrite Hs. simpl shr_m. simpl loc_of_shr_record.
    simpl round_nearest_even.
    rewrite shr_fexp_small by lia. simpl shr_m.
    replace (e + (Z.pos (digits2_pos m) - 24) <=? emax - prec) with true
      by (symmetry; apply Z.leb_le; unfold emax, prec; lia).
    simpl. split; [lia | exact Hq].
Qed.

Lemma shl_align_value (m : positive) (e e' : Z) :
  e' <= e ->
  Z.pos (fst (shl_align m e e')) = Z.pos m * 2 ^ (e - e')
  /\ snd (shl_align m e e') = e'.
Proof.
  intros Hle. unfold shl_align.
  destruct (e' - e) as [ | d | d] eqn:E; try lia; simpl fst; simpl snd.
  - replace (e - e') with 0 by lia. simpl. lia.
  - replace (e - e') with (Z.pos d) by lia. split; [ | reflexivity].
    change (Pos.iter xO m d) with (shift_pos d m).
    rewrite shift_pos_correct, Zpower_pos_nat, Zpower_nat_Z, positive_nat_Z. lia.
Qed.

Lemma round_exact (m : positive) (e v : Z) :
  e <= 0 -> Z.pos m = v * 2 ^ (- e) -> v < 2 ^ 24 ->
  Fexact (binary_round prec emax false m e) v.
Proof.
  intros He Hm Hv.
  destruct (exact_digits m e v He Hm Hv) as (Hv0 & Hlo & Hhi).
  unfold binary_round, fexp, emin. rewrite Z.max_l by (unfold prec, emax; lia).
  set (d := Z.pos (digits2_pos m)) in *. unfold prec.
  destruct (Z_le_gt_dec (d + e - 24) e) as [Hd | Hd].
  - destruct (shl_align_value m e (d + e - 24) Hd) as [Hf Hs].
    destruct (shl_align m e (d + e - 24)) as [mz ez]. simpl in Hf, Hs. subst ez.
    apply round_aux_exact; [lia | | exact Hv].
    rewrite Hf, Hm, <- Z.mul_assoc, <- Z.pow_add_r by lia. do 2 f_equal. lia.
  - unfold shl_align. destruct (d + e - 24 - e) eqn:E; try lia.
    apply round_aux_exact; assumption.
Qed.

Lemma of_int_exact (z : Z) : 0 <= z < 2 ^ 24 -> Fexact (of_int z) z.
Proof.
  intros Hz. unfold of_int, binary_normalize. destruct z as [ | m | m]; try lia.
  - reflexivity.
  - apply round_exact; [lia | simpl; lia | lia].
Qed.

Lemma pow2_exact (k : Z) : 0 <= k <= 23 -> Fexact (pow2 k) (2 ^ k).
Proof.
  intros Hk. unfold pow2, binary_normalize, binary_round, fexp, emin, prec, emax.
  simpl digits2_pos. rewrite Z.max_l by lia.
  unfold shl_align. replace (1 + k - 24 - k) with (-23) by lia.
  apply round_aux_exact; [lia | | apply Z.pow_lt_mono_r; lia].
  replace (- (1 + k - 24)) with (23 - k) by lia.
  rewrite <- Z.pow_add_r by lia. replace (k + (23 - k)) with 23 by lia.
  reflexivity.
Qed.

Lemma mul_exact (x y : float) (a b : Z) :
  Fexact x a -> Fexact y b -> a * b < 2 ^ 24 -> Fexact (mul x y) (a * b).
Proof.
  destruct x as [sx | sx | | sx mx ex], y as [sy | sy | | sy my ey];
    simpl; try tauto; try (destruct sx; tauto); try (destruct sy; tauto).
  - intros -> _ _. reflexivity.
  - destruct sy; [tauto | ]. intros -> _ _. reflexivity.
  - destruct sx; [tauto | ]. intros _ -> _. lia.
  - destruct sx; [tauto | ]. destruct sy; [tauto | ].
    intros [Hex Hmx] [Hey Hmy] Hab. simpl xorb.
    apply round_aux_exact; [lia | | exact Hab].
    rewrite Pos2Z.inj_mul, Hmx, Hmy.
    replace (- (ex + ey)) with (- ex + - ey) by lia.
    rewrite Z.pow_add_r by lia. ring.
Qed.

Lemma add_exact (x y : float) (a b : Z) :
  Fexact x a -> Fexact y b -> a + b < 2 ^ 24 -> Fexact (add x y) (a + b).
Proof.
  destruct x as [sx | sx | | sx mx ex], y as [sy | sy | | sy my ey];
    simpl; try tauto; try (destruct sx; tauto); try (destruct sy; tauto).
  - intros -> -> _. destruct sx, sy; reflexivity.
  - destruct sy; [tauto | ]. intros -> H _. exact H.
  - destruct sx; [tauto | ]. intros H -> _. rewrite Z.add_0_r. exact H.
  - destruct sx; [tauto | ]. destruct sy; [tauto | ].
    intros [Hex Hmx] [Hey Hmy] Hab. simpl cond_Zopp.
    destruct (shl_align_value mx ex (Z.min ex ey)) as [Hx _]; [lia | ].
    destruct (shl_align_value my ey (Z.min ex ey)) as [Hy _]; [lia | ].
    set (ez := Z.min ex ey) in *.
    assert (Hsum : Z.pos (fst (shl_align mx ex ez)) + Z.pos (fst (shl_align my ey ez))
                   = (a + b) * 2 ^ (- ez)).
    { rewrite Hx, Hy, Hmx, Hmy, <- !Z.mul_assoc, <- !Z.pow_add_r by lia.
      replace (- ex + (ex - ez)) with (- ez) by lia.
      replace (- ey + (ey - ez)) with (- ez) by lia. ring. }
    destruct (Z.pos (fst (shl_align mx ex ez)) + Z.pos (fst (shl_align my ey ez)))
      as [ | M | M] eqn:EM; try lia.
    simpl binary_normalize.
    apply round_exact; [lia | exact Hsum | exact Hab].
Qed.

Lemma trunc_exact (x : float) (z : Z) : Fexact x z -> trunc x = Some z.
Proof.
  destruct x as [s | s | | s m e]; simpl; try tauto.
  - intros ->. reflexivity.
  - destruct s; [tauto | ]. intros [He Hm]. simpl cond_Zopp. f_equal.
    destruct e as [ | p | p]; try lia.
    + rewrite Z.shiftl_0_r. change (- 0) with 0 in Hm.
      rewrite Z.pow_0_r in Hm. lia.
    + rewrite Z.shiftr_div_pow2 by lia. rewrite Hm.
      change (- Z.neg p) with (Z.pos p).
      apply Z.div_mul. apply Z.pow_nonzero; lia.
Qed.

Lemma to_long_exact (x : float) (z : Z) :
  Fexact x z -> 0 <= z < 2 ^ 24 -> to_long x = Some z.
Proof.
  intros Hx Hz. unfold to_long. rewrite (trunc_exact x z Hx). simpl.
  replace (AVR.in_long z) with true; [reflexivity | ].
  symmetry. unfold AVR.in_long, AVR.LONG_MIN, AVR.LONG_MAX.
  apply andb_true_iff. split; apply Z.leb_le; simpl in Hz; lia.
Qed.

(** *** Canonical integers *)

Lemma round_aux_canon (m : positive) (e v : Z) :
  e <= 0 -> Z.pos m = v * 2 ^ (- e) -> v < 2 ^ 24 ->
  24 <= Z.pos (digits2_pos m) ->
  Fcanon (binary_round_aux prec emax false (Z.pos m) e loc_Exact) v.
Proof.
  intros He Hm Hv Hd.
  destruct (exact_digits m e v He Hm Hv) as (Hv0 & Hlo & Hhi).
  unfold binary_round_aux, Fcanon.
  destruct (Z_le_gt_dec (Z.pos (digits2_pos m)) 24) as [Hd' | Hd'].
  - rewrite (shr_fexp_small m e Hd' ltac:(lia)). simpl shr_m. simpl loc_of_shr_record.
    simpl round_nearest_even. rewrite (shr_fexp_small m e Hd' ltac:(lia)). simpl shr_m.
    replace (e <=? emax - prec) with true
      by (symmetry; apply Z.leb_le; unfold emax, prec; lia).
    exists m, e. repeat split; try assumption. lia.
  - destruct (shr_fexp_big m e v He Hm Hv) as (q & Hs & Hq & Hdq); [lia | ].
    rewrite Hs. simpl shr_m. simpl loc_of_shr_record.
    simpl round_nearest_even.
    rewrite shr_fexp_small by lia. simpl shr_m.
    replace (e + (Z.pos (digits2_pos m) - 24) <=? emax - prec) with true
      by (symmetry; apply Z.leb_le; unfold emax, prec; lia).
    exists q, (e + (Z.pos (digits2_pos m) - 24)). repeat split; try assumption. lia.
Qed.

Lemma of_int_canon (z : Z) : 1 <= z < 2 ^ 24 -> Fcanon (of_int z) z.
Proof.
  intros Hz. unfold of_int, binary_normalize. destruct z as [ | m | m]; try lia.
  unfold binary_round, fexp, emin.
  pose proof (digits2_bounds m) as [Blo Bhi].
  set (d := Z.pos (digits2_pos m)) in *.
  assert (Hd0 : 0 < d) by (subst d; lia).
  assert (Hd : d <= 24).
  { destruct (Z_le_gt_dec d 24) as [ | Hgt]; [assumption | ].
    assert (2 ^ 24 <= 2 ^ (d - 1)) by (apply Z.pow_le_mono_r; lia). lia. }
  rewrite Z.max_l by (unfold prec, emax; lia). unfold prec.
  replace (d + 0 - 24) with (d - 24) by lia.
  destruct (shl_align_value m 0 (d - 24) ltac:(lia)) as [Hf Hs].
  destruct (shl_align m 0 (d - 24)) as [mz ez]. simpl in Hf, Hs. subst ez.
  replace (0 - (d - 24)) with (24 - d) in Hf by lia.
  apply round_aux_canon; [lia | | lia | ].
  - rewrite Hf. f_equal. f_equal. lia.
  - assert (Z.pos (digits2_pos mz) = 24); [ | lia].
    apply digits2_unique. rewrite Hf.
    assert (Hp : 0 < 2 ^ (24 - d)) by (apply Z.pow_pos_nonneg; lia).
    assert (2 ^ (24 - 1) = 2 ^ (d - 1) * 2 ^ (24 - d))
      by (rewrite <- Z.pow_add_r by lia; f_equal; lia).
    assert (2 ^ 24 = 2 ^ d * 2 ^ (24 - d))
      by (rewrite <- Z.pow_add_r by lia; f_equal; lia).
    nia.
Qed.

Lemma canon_exact (x : float) (z : Z) : Fcanon x z -> Fexact x z.
Proof. intros (m & e & -> & _ & He & Hm). simpl. auto. Qed.

(** A canonical integer is positive, below [2^24], and its exponent is
    between -23 and 0. *)
Lemma canon_bounds (m : positive) (e z : Z) :
  Z.pos (digits2_pos m) = 24 -> e <= 0 -> Z.pos m = z * 2 ^ (- e) ->
  2 ^ 23 <= Z.pos m < 2 ^ 24 /\ 1 <= z < 2 ^ 24 /\ -23 <= e.
Proof.
  intros Hd He Hm. pose proof (digits2_bounds m) as B. rewrite Hd in B.
  change (24 - 1) with 23 in B.
  assert (Hp : 0 < 2 ^ (- e)) by (apply Z.pow_pos_nonneg; lia).
  assert (Hz : 0 < z) by nia.
  split; [exact B | split; [nia | ]].
  destruct (Z_le_gt_dec (-23) e) as [ | Hlt]; [assumption | ].
  assert (2 ^ 24 <= 2 ^ (- e)) by (apply Z.pow_le_mono_r; lia). nia.
Qed.

Lemma mul_canon (x y : float) (a b : Z) :
  Fcanon x a -> Fcanon y b -> a * b < 2 ^ 24 -> Fcanon (mul x y) (a * b).
Proof.
  intros (mx & ex & -> & Hdx & Hex & Hmx) (my & ey & -> & Hdy & Hey & Hmy) Hab.
  destruct (canon_bounds mx ex a Hdx Hex Hmx) as (Bx & _ & _).
  destruct (canon_bounds my ey b Hdy Hey Hmy) as (By & _ & _).
  unfold mul, SFmul. simpl xorb.
  apply round_aux_canon; [lia | | exact Hab | ].
  - rewrite Pos2Z.inj_mul, Hmx, Hmy.
    replace (- (ex + ey)) with (- ex + - ey) by lia.
    rewrite Z.pow_add_r by lia. ring.
  - pose proof (digits2_bounds (mx * my)) as [_ Bhi].
    destruct (Z_le_gt_dec 24 (Z.pos (digits2_pos (mx * my)))) as [ | Hlt];
      [assumption | ].
    assert (2 ^ Z.pos (digits2_pos (mx * my)) <= 2 ^ 23)
      by (apply Z.pow_le_mono_r; lia).
    rewrite Pos2Z.inj_mul in Bhi. change (2 ^ 23) with 8388608 in *. nia.
Qed.

(** *** The truncated quotient of two canonical integers *)

(** The arithmetic behind it: a quotient [a/b] with [a < 2^24], known to
    24 significant bits as [m0], is never rounded up to the next integer. *)
Lemma no_round_up (a b m0 P r M : Z) :
  0 < b -> 0 < P -> a < 2 ^ 24 -> 2 ^ 23 <= m0 ->
  a * P = b * m0 + r -> 0 <= r < b ->
  M = m0 \/ (M = m0 + 1 /\ b <= 2 * r) ->
  M / P = a / b.
Proof.
  intros Hb HP Ha Hm0 Hdiv Hr HM.
  assert (H0 : m0 / P = a / b).
  { assert (Hq : m0 = a * P / b)
      by (apply (Z.div_unique_pos (a * P) b m0 r); lia).
    rewrite Hq, Z.div_div, Z.div_mul_cancel_r by lia.
    reflexivity. }
  destruct HM as [-> | [-> Hup]]; [exact H0 | ].
  rewrite <- H0.
  pose proof (Z.div_mod m0 P ltac:(lia)) as Hdm.
  pose proof (Z.mod_pos_bound m0 P HP) as Hmod.
  set (K := m0 / P) in *. set (rho := m0 mod P) in *.
  symmetry. apply (Z.div_unique_pos (m0 + 1) P K (rho + 1)); [ | lia].
  split; [lia | ].
  destruct (Z_lt_ge_dec (rho + 1) P) as [ | Hge]; [assumption | exfalso].
  assert (Hrho : rho = P - 1) by lia.
  assert (Hj : a * P = b * ((K + 1) * P - 1) + r) by (rewrite Hdiv; nia).
  assert (Hlt : a < b * (K + 1)) by nia.
  assert (HbP : 2 * P <= b) by nia.
  change (2 ^ 23) with 8388608 in Hm0. change (2 ^ 24) with 16777216 in Ha.
  nia.
Qed.

Lemma div_core_canon (m1 m2 : positive) (e1 e2 : Z) :
  Z.pos (digits2_pos m1) = 24 -> Z.pos (digits2_pos m2) = 24 ->
  -23 <= e1 <= 0 -> -23 <= e2 <= 0 ->
  SFdiv_core_binary prec emax (Z.pos m1) e1 (Z.pos m2) e2
  = (Z.pos m1 * 2 ^ 24 / Z.pos m2, e1 - e2 - 24,
     new_location (Z.pos m2) ((Z.pos m1 * 2 ^ 24) mod Z.pos m2)).
Proof.
  intros Hd1 Hd2 He1 He2.
  unfold SFdiv_core_binary, Zdigits2, fexp, emin, prec, emax.
  rewrite Hd1, Hd2. cbv zeta.
  replace (Z.min (Z.max (24 + e1 - (24 + e2) - 24) (3 - 128 - 24)) (e1 - e2))
    with (e1 - e2 - 24) by lia.
  replace (e1 - e2 - (e1 - e2 - 24)) with 24 by lia.
  cbv iota. rewrite Z.shiftl_mul_pow2 by lia.
  unfold Z.div, Z.modulo.
  destruct (Z.div_eucl (Z.pos m1 * 2 ^ 24) (Z.pos m2)) as [q r]. reflexivity.
Qed.

Lemma trunc_finite (m : positive) (e : Z) :
  e <= 0 -> trunc (S754_finite false m e) = Some (Z.pos m / 2 ^ (- e)).
Proof.
  intros He. unfold trunc. simpl cond_Zopp. f_equal.
  destruct e as [ | p | p]; try lia.
  - rewrite Z.shiftl_0_r. simpl. rewrite Z.div_1_r. reflexivity.
  - rewrite Z.shiftr_div_pow2 by lia. reflexivity.
Qed.

(** The second normalisation and the final truncation, for a rounded
    mantissa [M] between [2^23] and [2^24] inclusive. *)
Lemma trunc_carry (M e : Z) :
  2 ^ 23 <= M <= 2 ^ 24 -> -125 <= e <= 0 ->
  trunc
    (let '(mrs, e') := shr_fexp prec emax M e loc_Exact in
     match shr_m mrs with
     | 0 => S754_zero false
     | Z.pos m => if e' <=? emax - prec then S754_finite false m e'
                  else S754_infinity false
     | Z.neg _ => S754_nan
     end)
  = Some (M / 2 ^ (- e)).
Proof.
  intros HM He. destruct M as [ | m | m]; try lia.
  destruct (Z_lt_ge_dec (Z.pos m) (2 ^ 24)) as [Hlt | Hge].
  - assert (Hd : Z.pos (digits2_pos m) = 24)
      by (apply digits2_unique; change (24 - 1) with 23; lia).
    rewrite shr_fexp_small by lia. simpl shr_m.
    replace (e <=? emax - prec) with true
      by (symmetry; apply Z.leb_le; unfold emax, prec; lia).
    apply trunc_finite. lia.
  - assert (Hm : m = 16777216%positive) by (change (2 ^ 24) with 16777216 in *; lia).
    subst m. unfold shr_fexp, fexp, emin, prec, emax, Zdigits2.
    change (digits2_pos 16777216) with 25%positive. rewrite Z.max_l by lia.
    replace (25 + e - 24 - e) with 1 by lia.
    simpl shr. cbn [shr_m].
    replace (e + 1 <=? 128 - 24) with true by (symmetry; apply Z.leb_le; lia).
    destruct (Z.eq_dec e 0) as [-> | Hne]; [reflexivity | ].
    rewrite trunc_finite by lia. f_equal.
    replace (- e) with (1 + - (e + 1)) by lia.
    rewrite Z.pow_add_r by lia. change (2 ^ 1) with 2.
    change 16777216 with (2 * 8388608).
    rewrite Z.div_mul_cancel_l; [reflexivity | | lia].
    apply Z.pow_nonzero; lia.
Qed.

Lemma loc_of_record_of (m : Z) (l : location) :
  loc_of_shr_record (shr_record_of_loc m l) = l
  /\ shr_m (shr_record_of_loc m l) = m.
Proof. destruct l as [ | [ | | ]]; split; reflexivity. Qed.

(** A quotient of 24 digits: rounded in place. *)
Lemma round_trunc_24 (q : positive) (e : Z) (l : location) :
  Z.pos (digits2_pos q) = 24 -> -125 <= e <= 0 ->
  trunc (binary_round_aux prec emax false (Z.pos q) e l)
  = Some (round_nearest_even (Z.pos q) l / 2 ^ (- e))
  /\ (round_nearest_even (Z.pos q) l = Z.pos q
      \/ (round_nearest_even (Z.pos q) l = Z.pos q + 1
          /\ (l = loc_Inexact Eq \/ l = loc_Inexact Gt))).
Proof.
  intros Hd He.
  pose proof (digits2_bounds q) as B. rewrite Hd in B. change (24 - 1) with 23 in B.
  assert (Hcases : round_nearest_even (Z.pos q) l = Z.pos q
                   \/ (round_nearest_even (Z.pos q) l = Z.pos q + 1
                       /\ (l = loc_Inexact Eq \/ l = loc_Inexact Gt))).
  { destruct l as [ | [ | | ]]; cbn [round_nearest_even]; auto.
    destruct (Z.even (Z.pos q)); auto. }
  split; [ | exact Hcases].
  unfold binary_round_aux.
  assert (Hs : shr_fexp prec emax (Z.pos q) e l = (shr_record_of_loc (Z.pos q) l, e)).
  { unfold shr_fexp, fexp, emin, prec, emax, Zdigits2. rewrite Hd.
    rewrite Z.max_l by lia. replace (24 + e - 24 - e) with 0 by lia. reflexivity. }
  rewrite Hs. destruct (loc_of_record_of (Z.pos q) l) as [-> ->].
  apply trunc_carry; [ | lia].
  destruct Hcases as [-> | [-> _]]; lia.
Qed.

(** A quotient of 25 digits: its last bit is shifted out, then rounded. *)
Lemma round_trunc_25 (q : positive) (e : Z) (l : location) :
  Z.pos (digits2_pos q) = 25 -> -125 <= e <= -1 ->
  exists M,
    trunc (binary_round_aux prec emax false (Z.pos q) e l)
    = Some (M / 2 ^ (- (e + 1)))
    /\ (M = Z.pos q / 2
        \/ (M = Z.pos q / 2 + 1 /\ Z.pos q = 2 * (Z.pos q / 2) + 1)).
Proof.
  intros Hd He.
  pose proof (digits2_bounds q) as B. rewrite Hd in B. change (25 - 1) with 24 in B.
  set (mrs := shr_1 (shr_record_of_loc (Z.pos q) l)).
  set (M := round_nearest_even (shr_m mrs) (loc_of_shr_record mrs)).
  assert (Hcases : M = Z.pos q / 2
                   \/ (M = Z.pos q / 2 + 1 /\ Z.pos q = 2 * (Z.pos q / 2) + 1)).
  { subst M mrs. destruct q as [p | p | ].
    - assert (Hp : Z.pos p~1 / 2 = Z.pos p)
        by (rewrite Pos2Z.inj_xI; Z.div_mod_to_equations; lia).
      rewrite Hp.
      assert (Hodd : Z.pos p~1 = 2 * Z.pos p + 1) by apply Pos2Z.inj_xI.
      destruct l as [ | [ | | ]]; cbn [shr_record_of_loc shr_1 shr_m
        loc_of_shr_record round_nearest_even orb];
        try destruct (Z.even (Z.pos p)); auto.
    - assert (Hp : Z.pos p~0 / 2 = Z.pos p)
        by (rewrite Pos2Z.inj_xO; Z.div_mod_to_equations; lia).
      rewrite Hp.
      destruct l as [ | [ | | ]]; cbn [shr_record_of_loc shr_1 shr_m
        loc_of_shr_record round_nearest_even orb]; auto.
    - simpl in Hd. lia. }
  exists M. split; [ | exact Hcases].
  unfold binary_round_aux.
  assert (Hs : shr_fexp prec emax (Z.pos q) e l = (mrs, e + 1)).
  { unfold shr_fexp, fexp, emin, prec, emax, Zdigits2. rewrite Hd.
    rewrite Z.max_l by lia. replace (25 + e - 24 - e) with 1 by lia. reflexivity. }
  rewrite Hs. fold M.
  apply trunc_carry; [ | lia].
  change (2 ^ 24) with 16777216 in *. change (2 ^ 25) with 33554432 in *.
  change (2 ^ 23) with 8388608.
  destruct Hcases as [-> | [-> _]]; Z.div_mod_to_equations; lia.
Qed.

Lemma new_location_up (nb k : Z) :
  new_location nb k = loc_Inexact Eq \/ new_location nb k = loc_Inexact Gt ->
  nb <= 2 * k.
Proof.
  unfold new_location, new_location_even, new_location_odd.
  destruct (Z.even nb); destruct (k =? 0) eqn:Ek;
    try (intros [H | H]; discriminate).
  - destruct (2 * k ?= nb) eqn:Ec; intros [H | H]; try discriminate.
    + apply Z.compare_eq in Ec. lia.
    + apply Z.compare_gt_iff in Ec. lia.
  - destruct (2 * k + 1 ?= nb) eqn:Ec; intros [H | H]; try discriminate.
    apply Z.compare_gt_iff in Ec. lia.
Qed.

(** [(int)(x / y)] for canonical integers: the division rounds to nearest,
    the conversion truncates, and together they give the integer quotient. *)
Lemma div_trunc (x y : float) (a b : Z) :
  Fcanon x a -> Fcanon y b -> trunc (div x y) = Some (a / b).
Proof.
  intros (m1 & e1 & -> & Hd1 & He1 & Hm1) (m2 & e2 & -> & Hd2 & He2 & Hm2).
  destruct (canon_bounds m1 e1 a Hd1 He1 Hm1) as (B1 & Ba & Le1).
  destruct (canon_bounds m2 e2 b Hd2 He2 Hm2) as (B2 & Bb & Le2).
  unfold div, SFdiv. rewrite div_core_canon by lia. simpl xorb.
  pose proof (Z.div_mod (Z.pos m1 * 2 ^ 24) (Z.pos m2) ltac:(lia)) as Hdm.
  pose proof (Z.mod_pos_bound (Z.pos m1 * 2 ^ 24) (Z.pos m2) ltac:(lia)) as Hr.
  set (q := Z.pos m1 * 2 ^ 24 / Z.pos m2) in *.
  set (r := (Z.pos m1 * 2 ^ 24) mod Z.pos m2) in *.
  clearbody q r.
  set (e := e1 - e2 - 24).
  set (A := 2 ^ (- e1)) in *. set (B := 2 ^ (- e2)) in *.
  assert (HA : 0 < A) by (apply Z.pow_pos_nonneg; lia).
  assert (HB : 0 < B) by (apply Z.pow_pos_nonneg; lia).
  assert (HP : 0 < 2 ^ (- e)) by (apply Z.pow_pos_nonneg; subst e; lia).
  assert (HPB : 2 ^ (- e) * B = 2 ^ 24 * A).
  { subst A B e. rewrite <- !Z.pow_add_r by lia. f_equal. lia. }
  change (2 ^ 23) with 8388608 in *. change (2 ^ 24) with 16777216 in *.
  assert (Hq : 8388608 <= q < 33554432) by nia.
  set (r' := a * 2 ^ (- e) - b * q).
  assert (Hdiv : a * 2 ^ (- e) = b * q + r') by (subst r'; lia).
  assert (Hr' : r = B * r') by (subst r'; nia).
  assert (Hr'b : 0 <= r' < b) by nia.
  clearbody r'.
  destruct q as [ | qp | qp]; try lia.
  destruct (Z_lt_ge_dec (Z.pos qp) 16777216) as [Hlt | Hge].
  - assert (Hdq : Z.pos (digits2_pos qp) = 24)
      by (apply digits2_unique; change (2 ^ (24 - 1)) with 8388608;
          change (2 ^ 24) with 16777216; lia).
    destruct (round_trunc_24 qp e (new_location (Z.pos m2) r) Hdq
                ltac:(subst e; lia)) as [-> HM].
    f_equal. apply (no_round_up a b (Z.pos qp) (2 ^ (- e)) r'); try lia.
    destruct HM as [HM | [HM Hup]]; [left; exact HM | right].
      split; [exact HM | ]. apply new_location_up in Hup. nia.
  - assert (Hdq : Z.pos (digits2_pos qp) = 25)
      by (apply digits2_unique; change (2 ^ (25 - 1)) with 16777216;
          change (2 ^ 25) with 33554432; lia).
    destruct (round_trunc_25 qp e (new_location (Z.pos m2) r) Hdq
                ltac:(subst e; lia)) as (M & -> & HM).
    f_equal.
    assert (HP1 : 0 < 2 ^ (- (e + 1))) by (apply Z.pow_pos_nonneg; subst e; lia).
    assert (HP2 : 2 ^ (- e) = 2 * 2 ^ (- (e + 1))).
    { replace (- e) with (1 + - (e + 1)) by lia.
      rewrite Z.pow_add_r by (subst e; lia). reflexivity. }
    pose proof (Z.div_mod (Z.pos qp) 2 ltac:(lia)) as Hq2.
    pose proof (Z.mod_pos_bound (Z.pos qp) 2 ltac:(lia)) as Hbeta.
    set (m0 := Z.pos qp / 2) in *. set (beta := Z.pos qp mod 2) in *.
    apply (no_round_up a b m0 (2 ^ (- (e + 1))) (a * 2 ^ (- (e + 1)) - b * m0));
      try lia.
    nia.
Qed.

(** Dividing a canonical integer by 4 lowers its exponent by 2. *)
Lemma div_by_four (m : positive) (e : Z) :
  Z.pos (digits2_pos m) = 24 -> -23 <= e <= 0 ->
  div (S754_finite false m e) (of_int 4) = S754_finite false m (e - 2).
Proof.
  intros Hd He. change (of_int 4) with (S754_finite false 8388608 (-21)).
  unfold div, SFdiv. rewrite div_core_canon by (try reflexivity; lia).
  simpl xorb.
  assert (Hq : Z.pos m * 2 ^ 24 / 8388608 = Z.pos m~0).
  { change (2 ^ 24) with (2 * 8388608). rewrite Z.mul_assoc, Z.div_mul by lia.
    rewrite Pos2Z.inj_xO. lia. }
  assert (Hr : (Z.pos m * 2 ^ 24) mod 8388608 = 0).
  { change (2 ^ 24) with (2 * 8388608). rewrite Z.mul_assoc. apply Z.mod_mul. lia. }
  rewrite Hq, Hr. change (new_location 8388608 0) with loc_Exact.
  unfold binary_round_aux.
  assert (Hs : shr_fexp prec emax (Z.pos m~0) (e - -21 - 24) loc_Exact
               = (Build_shr_record (Z.pos m) false false, e - 2)).
  { unfold shr_fexp, fexp, emin, prec, emax, Zdigits2. cbn [digits2_pos].
    rewrite Pos2Z.inj_succ, Hd. rewrite Z.max_l by lia.
    replace (Z.succ 24 + (e - -21 - 24) - 24 - (e - -21 - 24)) with 1 by lia.
    cbn [shr SpecFloat.iter_pos shr_record_of_loc shr_1 orb]. f_equal. lia. }
  rewrite Hs. cbn [shr_m loc_of_shr_record round_nearest_even].
  rewrite shr_fexp_small by lia. cbn [shr_m].
  replace (e - 2 <=? emax - prec) with true
    by (symmetry; apply Z.leb_le; unfold emax, prec; lia).
  reflexivity.
Qed.

(** [RFout/4 * 1000] for a canonical integer frequency. *)
Lemma quarter_times_1000 (x : float) (t : Z) :
  Fcanon x t -> 250 * t < 2 ^ 24 ->
  Fcanon (mul (div x (of_int 4)) (of_int 1000)) (250 * t).
Proof.
  intros (m & e & -> & Hd & He & Hm) Ht.
  destruct (canon_bounds m e t Hd He Hm) as (Bm & Bt & Le).
  rewrite div_by_four by lia.
  destruct (of_int_canon 1000 ltac:(lia)) as (m3 & e3 & -> & Hd3 & He3 & Hm3).
  destruct (canon_bounds m3 e3 1000 Hd3 He3 Hm3) as (B3 & _ & Le3).
  unfold mul, SFmul. simpl xorb.
  apply round_aux_canon; [lia | | exact Ht | ].
  - rewrite Pos2Z.inj_mul, Hm, Hm3.
    replace (- (e - 2 + e3)) with (2 + (- e + - e3)) by lia.
    rewrite !Z.pow_add_r by lia. change (2 ^ 2) with 4. ring.
  - pose proof (digits2_bounds (m * m3)) as [_ Bhi].
    destruct (Z_le_gt_dec 24 (Z.pos (digits2_pos (m * m3)))) as [ | Hlt];
      [assumption | ].
    assert (2 ^ Z.pos (digits2_pos (m * m3)) <= 2 ^ 23)
      by (apply Z.pow_le_mono_r; lia).
    rewrite Pos2Z.inj_mul in Bhi. change (2 ^ 23) with 8388608 in *. nia.
Qed.

Lemma to_int_div (x y : float) (a b : Z) :
  Fcanon x a -> Fcanon y b -> a / b <= AVR.INT_MAX ->
  to_int (div x y) = Some (a / b).
Proof.
  intros Hx Hy Hmax. unfold to_int. rewrite (div_trunc x y a b Hx Hy).
  cbn [mbind option_bind].
  destruct Hx as (m1 & e1 & _ & Hd1 & He1 & Hm1).
  destruct Hy as (m2 & e2 & _ & Hd2 & He2 & Hm2).
  destruct (canon_bounds m1 e1 a Hd1 He1 Hm1) as (_ & Ba & _).
  destruct (canon_bounds m2 e2 b Hd2 He2 Hm2) as (_ & Bb & _).
  assert (0 <= a / b) by (apply Z.div_pos; lia).
  replace (AVR.in_int (a / b)) with true; [reflexivity | ].
  symmetry. unfold AVR.in_int, AVR.INT_MIN. apply andb_true_iff.
  split; apply Z.leb_le; lia.
Qed.

End F32Facts.

(** ** The register words *)

Module WordFacts.

Import AVR F32 F32Facts Sketch.

Lemma land_ones_bounds (z : Z) (n : Z) : 0 <= n -> 0 <= Z.land z (Z.ones n) < 2 ^ n.
Proof.
  intros Hn. rewrite Z.land_ones by exact Hn.
  apply Z.mod_pos_bound. apply Z.pow_pos_nonneg; lia.
Qed.

Ltac exact_value :=
  repeat match goal with
         | |- Fexact (add _ _) _ => eapply add_exact
         | |- Fexact (mul _ _) _ => eapply mul_exact
         | |- Fexact (pow2 _) _ => apply pow2_exact; lia
         | |- Fexact (of_int _) _ => apply of_int_exact; lia
         end.

(** The reference word: every term is an integer and the sum stays below
    [2^24], so the [float] arithmetic of line 357 is exact. *)
Lemma Reg0_exact (c : Counters) :
  Fexact (fst (fst (registers c))) (0x910000 + Z.land (cR c) 0x3FFF * 4).
Proof.
  pose proof (land_ones_bounds (cR c) 14 ltac:(lia)) as Hr.
  change (Z.ones 14) with 0x3FFF in Hr. change (2 ^ 14) with 16384 in Hr.
  cbv beta iota zeta delta [registers fst snd].
  set (r := Z.land (cR c) 0x3FFF) in *.
  replace (0x910000 + r * 4) with (2 ^ 23 + 2 ^ 20 + 1 * 2 ^ 16 + r * 2 ^ 2) by lia.
  change (to_byte TestmodesBoxSelectedIndex) with 1.
  exact_value; lia.
Qed.

(** The feedback word (line 358). *)
Lemma Reg1_exact (c : Counters) :
  Fexact (snd (fst (registers c)))
         (Z.land (cB c) 0x1FFF * 256 + Z.land (cA c) 0x3F * 4 + 1).
Proof.
  pose proof (land_ones_bounds (cB c) 13 ltac:(lia)) as Hb.
  pose proof (land_ones_bounds (cA c) 6 ltac:(lia)) as Ha.
  change (Z.ones 13) with 0x1FFF in Hb. change (2 ^ 13) with 8192 in Hb.
  change (Z.ones 6) with 0x3F in Ha. change (2 ^ 6) with 64 in Ha.
  cbv beta iota zeta delta [registers fst snd].
  set (b := Z.land (cB c) 0x1FFF) in *. set (a := Z.land (cA c) 0x3F) in *.
  replace (b * 256 + a * 4 + 1) with (0 * 2 ^ 21 + b * 2 ^ 8 + a * 2 ^ 2 + 1) by lia.
  change (to_byte ChargePumpGainBoxSelectedIndex) with 0.
  exact_value; lia.
Qed.

(** The function word (line 359) is built from constants only. *)
Lemma Reg2_exact (c : Counters) : Fexact (snd (registers c)) 0x4D8002.
Proof.
  cbv beta iota zeta delta [registers fst snd].
  vm_compute. split; [discriminate | reflexivity].
Qed.

Lemma words_exact (c : Counters) :
  words c = Some (mkWords (word_R c) (word_N c) word_F).
Proof.
  pose proof (land_ones_bounds (cR c) 14 ltac:(lia)) as Hr.
  pose proof (land_ones_bounds (cB c) 13 ltac:(lia)) as Hb.
  pose proof (land_ones_bounds (cA c) 6 ltac:(lia)) as Ha.
  change (Z.ones 14) with 0x3FFF in Hr. change (2 ^ 14) with 16384 in Hr.
  change (Z.ones 13) with 0x1FFF in Hb. change (2 ^ 13) with 8192 in Hb.
  change (Z.ones 6) with 0x3F in Ha. change (2 ^ 6) with 64 in Ha.
  pose proof (Reg0_exact c) as H0. pose proof (Reg1_exact c) as H1.
  pose proof (Reg2_exact c) as H2.
  unfold words. destruct (registers c) as [[Reg0 Reg1] Reg2]. simpl in H0, H1, H2.
  rewrite (to_long_exact _ _ H0), (to_long_exact _ _ H1), (to_long_exact _ _ H2)
    by (unfold word_R, word_N; lia).
  reflexivity.
Qed.

End WordFacts.

(** ** calcRegisters *)

Module CalcFacts.

Import AVR F32 F32Facts Sketch WordFacts.

Lemma store_Some (a a' : list Z) (i v : Z) :
  store a i v = Some a' ->
  0 <= i < Z.of_nat (length a) /\ a' = <[Z.to_nat i := v]> a.
Proof.
  unfold store. destruct (0 <=? i) eqn:E1, (i <? Z.of_nat (length a)) eqn:E2;
    simpl; intros H; inversion H; subst.
  split; [lia | reflexivity].
Qed.

Lemma store_in_range (a : list Z) (i v : Z) :
  0 <= i < Z.of_nat (length a) -> store a i v = Some (<[Z.to_nat i := v]> a).
Proof.
  intros Hi. unfold store.
  replace (0 <=? i) with true by (symmetry; apply Z.leb_le; lia).
  replace (i <? Z.of_nat (length a)) with true by (symmetry; apply Z.ltb_lt; lia).
  reflexivity.
Qed.

Lemma load_store_eq (a a' : list Z) (i v : Z) :
  store a i v = Some a' -> load a' i = Some v.
Proof.
  intros H. apply store_Some in H as [Hi ->]. unfold load.
  replace (0 <=? i) with true by (symmetry; apply Z.leb_le; lia).
  apply list_lookup_insert_eq. lia.
Qed.

(** The state after a call, given the counters it computed. *)
Lemma calcRegisters_Some (t r p : float) (i : Z) (g g' : Globals) :
  calcRegisters t r p i g = Some g' ->
  exists c N0' N1' R0A' R1A' R2A',
    counters t r p = Some c
    /\ store (N0 g) i (lowByte (word_N c)) = Some N0'
    /\ store (N1 g) i (lowByte (shr (word_N c) 8)) = Some N1'
    /\ store (R0A g) i (lowByte (word_R c)) = Some R0A'
    /\ store (R1A g) i (lowByte (shr (word_R c) 8)) = Some R1A'
    /\ store (R2A g) i (lowByte (shr (word_R c) 16)) = Some R2A'
    /\ g' = {| N0 := N0'; N1 := N1'; N2 := N2 g;
               R2 := if i =? 0 then lowByte (shr (word_R c) 16) else R2 g;
               R1 := if i =? 0 then lowByte (shr (word_R c) 8) else R1 g;
               R0 := if i =? 0 then lowByte (word_R c) else R0 g;
               R0A := R0A'; R1A := R1A'; R2A := R2A';
               F2 := if i =? 0 then lowByte (shr word_F 16) else F2 g;
               F1 := if i =? 0 then lowByte (shr word_F 8) else F1 g;
               F0 := if i =? 0 then lowByte word_F else F0 g;
               F0A := F0A g; F1A := F1A g; F2A := F2A g |}.
Proof.
  unfold calcRegisters. intros H.
  destruct (counters t r p) as [c | ] eqn:Ec;
    [cbn [mbind option_bind] in H | discriminate].
  rewrite words_exact in H. cbn [mbind option_bind wN wR wF] in H.
  destruct (store (N0 g) i _) as [N0' | ] eqn:E0; [simpl in H | discriminate].
  destruct (store (N1 g) i _) as [N1' | ] eqn:E1; [simpl in H | discriminate].
  destruct (store (R0A g) i _) as [R0A' | ] eqn:E2;
    [ | destruct (i =? 0); discriminate].
  destruct (store (R1A g) i _) as [R1A' | ] eqn:E3;
    [ | destruct (i =? 0); discriminate].
  destruct (store (R2A g) i _) as [R2A' | ] eqn:E4;
    [ | destruct (i =? 0); discriminate].
  exists c, N0', N1', R0A', R1A', R2A'.
  repeat (split; [assumption || reflexivity | ]).
  destruct (i =? 0); simpl in H; inversion H; reflexivity.
Qed.

End CalcFacts.

Import AVR F32 F32Facts Sketch WordFacts CalcFacts.

(** C9. A call [calcRegisters(targetFreq, refFreq, pfdFreq, i)] that returns
    leaves the function latch arrays [F0A], [F1A], [F2A] as they were (and
    [N2] too); it writes element [i] of [N0], [N1], [R0A], [R1A], [R2A]
    and nothing else of these arrays, and it leaves the scalars [R0], [R1],
    [R2], [F0], [F1], [F2] alone unless [i] is 0. *)
Theorem C9_calcRegisters_frame
    (t r p : float) (i : Z) (g g' : Globals) :
  calcRegisters t r p i g = Some g' ->
  (F0A g' = F0A g /\ F1A g' = F1A g /\ F2A g' = F2A g /\ N2 g' = N2 g)
  /\ (forall j : nat, j <> Z.to_nat i ->
        N0 g' !! j = N0 g !! j /\ N1 g' !! j = N1 g !! j
        /\ R0A g' !! j = R0A g !! j /\ R1A g' !! j = R1A g !! j
        /\ R2A g' !! j = R2A g !! j)
  /\ (length (N0 g') = length (N0 g) /\ length (N1 g') = length (N1 g)
      /\ length (R0A g') = length (R0A g) /\ length (R1A g') = length (R1A g)
      /\ length (R2A g') = length (R2A g))
  /\ (i <> 0 ->
        R0 g' = R0 g /\ R1 g' = R1 g /\ R2 g' = R2 g
        /\ F0 g' = F0 g /\ F1 g' = F1 g /\ F2 g' = F2 g).
Proof.
  intros H.
  apply calcRegisters_Some in H
    as (c & N0' & N1' & R0A' & R1A' & R2A' & _ & E0 & E1 & E2 & E3 & E4 & ->).
  apply store_Some in E0 as [_ ->]. apply store_Some in E1 as [_ ->].
  apply store_Some in E2 as [_ ->]. apply store_Some in E3 as [_ ->].
  apply store_Some in E4 as [_ ->]. simpl.
  split; [auto | split; [ | split]].
  - intros j Hj. rewrite !list_lookup_insert_ne by congruence. auto.
  - rewrite !length_insert. auto.
  - intros Hi. apply Z.eqb_neq in Hi. rewrite Hi. repeat split.
Qed.

(** A call on the zero-initialised globals of a one-entry sweep. *)
Lemma C9_calcRegisters_frame_witness :
  let g := initial 1 in
  exists g',
    calcRegisters (of_int 10415) (of_int 100) (of_int 1250) 0 g = Some g'
    /\ F0A g' = F0A g /\ F1A g' = F1A g /\ F2A g' = F2A g /\ N2 g' = N2 g.
Proof.
  intros g. eexists. split; [vm_compute; reflexivity | ].
  refine (proj1 (C9_calcRegisters_frame (of_int 10415) (of_int 100)
                   (of_int 1250) 0 g _ _)).
  vm_compute. reflexivity.
Defined.

(** C4. For every input on which [calcRegisters] is defined, the three
    words it computes have fixed two least significant bits: [00] for the
    reference word, [01] for the feedback word and [10] for the function
    word, whatever the counter values in the rest of the word. *)
Theorem C4_destination_tags (t r p : float) (i : Z) (g g' : Globals) :
  calcRegisters t r p i g = Some g' ->
  exists c w,
    counters t r p = Some c /\ words c = Some w
    /\ Z.land (wR w) 3 = 0 /\ Z.land (wN w) 3 = 1 /\ Z.land (wF w) 3 = 2.
Proof.
  intros H. apply calcRegisters_Some in H as (c & ? & ? & ? & ? & ? & Hc & _).
  exists c, (mkWords (word_R c) (word_N c) word_F).
  split; [exact Hc | split; [apply words_exact | ]]. simpl.
  change 3 with (Z.ones 2). rewrite !Z.land_ones by lia.
  unfold word_R, word_N, word_F. change (2 ^ 2) with 4.
  repeat split.
  - replace (9502720 + Z.land (cR c) 16383 * 4)
      with ((2375680 + Z.land (cR c) 16383) * 4) by lia.
    apply Z.mod_mul. lia.
  - replace (Z.land (cB c) 8191 * 256 + Z.land (cA c) 63 * 4 + 1)
      with (1 + (Z.land (cB c) 8191 * 64 + Z.land (cA c) 63) * 4) by lia.
    rewrite Z.mod_add by lia. reflexivity.
Qed.

Lemma C4_destination_tags_witness :
  exists c w,
    counters (of_int 10415) (of_int 100) (of_int 1250) = Some c
    /\ words c = Some w
    /\ Z.land (wR w) 3 = 0 /\ Z.land (wN w) 3 = 1 /\ Z.land (wF w) 3 = 2.
Proof.
  apply (C4_destination_tags (of_int 10415) (of_int 100) (of_int 1250) 0
           (initial 1) (mkGlobals [13] [130] 0 145 1 64 [64] [1] [145] 77 128 2
                          [0] [0] [0])).
  vm_compute. reflexivity.
Defined.

(** ** The documented example, 10415 MHz *)

(** The reference word and the function word as 24-bit values. *)
Lemma example_words :
  (c ← counters (of_int 10415) (of_int 100) (of_int 1250); words c)
  = Some (mkWords 0x910140 0x820D 0x4D8002).
Proof. vm_compute. reflexivity. Qed.

(** C2, as stated, fails: for 10415 MHz the middle byte of the feedback
    word is [0x82], not [0x83] (and the low byte [0x0D], not [0x11]). *)
Lemma C2_counterexample :
  ~ exists g,
      calcRegisters (of_int 10415) (of_int 100) (of_int 1250) 0
        (initial (length freqVec)) = Some g
      /\ N1 g !! 0%nat = Some 0x83 /\ N0 g !! 0%nat = Some 0x11
      /\ (R2 g, R1 g, R0 g) = (0x91, 0x01, 0x40)
      /\ (F2 g, F1 g, F0 g) = (0x4D, 0x80, 0x02).
Proof.
  intros (g & Hg & H1 & _).
  vm_compute in Hg. inversion Hg; subst g. simpl in H1. discriminate.
Qed.

(** C2, amended. For 10415 MHz, reference 100 MHz and comparison frequency
    1250 kHz, with the selectors [calcRegisters] fixes (prescaler index 1,
    charge pump settings 3 and 3, test mode 1, all others 0), the feedback
    counter's middle/low byte pair is [{0x82, 0x0D}] (N = 2083 = 130 * 16 + 3),
    the reference word is [0x910140] and the function word is [0x4D8002]. *)
Theorem C2_example_10415 :
  exists g,
    calcRegisters (of_int 10415) (of_int 100) (of_int 1250) 0
      (initial (length freqVec)) = Some g
    /\ N1 g !! 0%nat = Some 0x82 /\ N0 g !! 0%nat = Some 0x0D
    /\ (R2 g, R1 g, R0 g) = (0x91, 0x01, 0x40)
    /\ (F2 g, F1 g, F0 g) = (0x4D, 0x80, 0x02)
    /\ counters (of_int 10415) (of_int 100) (of_int 1250)
       = Some (mkCounters 16 80 2083 130 3).
Proof.
  eexists. split; [vm_compute; reflexivity | ].
  repeat split; vm_compute; reflexivity.
Qed.

(** The pair [{0x83, 0x11}] is the feedback word of 10500 MHz, and the
    whole precalculated table is what [calcRegisters] computes for 10500,
    10600, ... MHz: the precalculated variant sweeps another frequency
    list than [freqVec]. *)
Lemma precalculated_table_frequencies :
  forall k : nat, (k < 26)%nat ->
    exists c,
      counters (of_int (10500 + 100 * Z.of_nat k)) (of_int 100) (of_int 1250)
      = Some c
      /\ Precalculated.N1 !! k = Some (lowByte (shr (word_N c) 8))
      /\ Precalculated.N0 !! k = Some (lowByte (word_N c))
      /\ lowByte (shr (word_R c) 16) = Precalculated.R2
      /\ lowByte (shr (word_R c) 8) = Precalculated.R1
      /\ lowByte (word_R c) = Precalculated.R0.
Proof.
  intros k Hk.
  do 26 (destruct k as [ | k];
         [eexists; split; [vm_compute; reflexivity | repeat split] | ]).
  lia.
Qed.

(** ** The counter values *)

(** The document's ratios as integer quotients. *)
Lemma spec_ratios (t ref pfd : Z) :
  0 < pfd ->
  Qfloor (inject_Z ref * 1000 / inject_Z pfd)%Q = 1000 * ref / pfd
  /\ Qfloor (inject_Z t / 4 * 1000 / inject_Z pfd)%Q = 250 * t / pfd.
Proof.
  intros Hp. destruct pfd as [ | p | p]; try lia.
  unfold Qfloor, Qdiv, Qmult, Qinv, inject_Z. cbn [Qnum Qden].
  split.
  - f_equal; lia.
  - replace (t * 1 * 1000 * 1) with (250 * t * 4) by lia.
    replace (Z.pos (1 * 4 * 1 * p)) with (Z.pos p * 4) by lia.
    apply Z.div_mul_cancel_r; lia.
Qed.

(** On every input on which the conversions to [int] are defined, the
    integer part of the computation is exact: [P] is 16, [B] is the
    truncated quotient of [N] by [P] and [A] the remainder. *)
Lemma counters_split (t r p : float) (c : Counters) :
  counters t r p = Some c ->
  cP c = 2 ^ PrescalerBoxIndex * 8
  /\ cB c = Z.quot (cN c) (cP c)
  /\ cA c = cN c - cB c * cP c
  /\ cN c = cB c * cP c + cA c
  /\ Z.abs (cA c) < cP c.
Proof.
  unfold counters. change (to_int (pow2 PrescalerBoxIndex)) with (Some 2).
  cbn [mbind option_bind].
  destruct (to_int (div (mul r _) p)) as [R | ]; [ | discriminate].
  cbn [mbind option_bind].
  destruct (to_int (div (mul _ _) p)) as [N | ]; [ | discriminate].
  cbn [mbind option_bind]. intros H. inversion H; subst c; clear H. simpl.
  change (2 * 8) with 16.
  pose proof (Z.quot_rem' N 16) as Hqr.
  pose proof (Z.rem_bound_abs N 16 ltac:(lia)) as Hb.
  repeat split; lia.
Qed.

(** C3, as stated, fails: the quotients are computed in binary32 and
    converted to a 16-bit [int].  At 131072 MHz with a comparison
    frequency of 1000 every operation is exact and the document's [N] is
    32768, one more than the largest [int]: no value of [N] that
    [calcRegisters] can hold equals it. *)
Lemma C3_counterexample :
  Fexact (of_int 131072) 131072 /\ Fexact (of_int 100) 100
  /\ Fexact (of_int 1000) 1000
  /\ cN (Spec.counters 131072 100 1000 PrescalerBoxIndex) = 32768
  /\ in_int 32768 = false
  /\ ~ exists c,
         counters (of_int 131072) (of_int 100) (of_int 1000) = Some c
         /\ cN c = cN (Spec.counters 131072 100 1000 PrescalerBoxIndex).
Proof.
  split; [apply of_int_exact; lia | ].
  split; [apply of_int_exact; lia | ].
  split; [apply of_int_exact; lia | ].
  split; [reflexivity | ]. split; [reflexivity | ].
  intros (c & Hc & _). vm_compute in Hc. discriminate.
Qed.

(** Within the range of [int] the rounding of the binary32 division shows:
    for 12 MHz and the binary32 nearest to 0.1 as comparison frequency,
    the exact quotient [3000 / pfd] is just below 30000 and its floor is
    29999, while the rounded quotient is 30000. *)
Lemma float_rounding_example :
  let pfd := div (of_int 1) (of_int 10) in
  pfd = S754_finite false 13421773 (-27)
  /\ (pfd' ← to_Q pfd;
      Some (cN (Spec.counters 12 1 pfd' PrescalerBoxIndex))) = Some 29999
  /\ (c ← counters (of_int 12) (of_int 1) pfd; Some (cN c)) = Some 30000.
Proof. repeat split; vm_compute; reflexivity. Qed.

(** C3, amended. For all integer-valued frequencies with
    [1 <= targetFreq <= 67108], [1 <= refFreq <= 16777] and
    [1 <= pfdFreq < 2^24] whose divide ratios R and N do not exceed 32767,
    the largest [int], [calcRegisters] computes exactly the counter values
    of the design document: [P = 2^prescalerIndex * 8 = 16],
    [R = floor(refFreq*1000/pfdFreq)], [N = floor(targetFreq/4*1000/pfdFreq)],
    [B = floor(N/P)], [A = N - B*P], every division truncating toward
    zero, with [N = B*P + A] and [0 <= A < P].  The [int] frequencies of the
    frequency vector with the sketch's reference 100 and comparison
    frequency 1250 are among them. *)
Theorem C3_counters_integer_frequencies (t ref pfd : Z) :
  1 <= t -> 250 * t < 2 ^ 24 ->
  1 <= ref -> 1000 * ref < 2 ^ 24 ->
  1 <= pfd < 2 ^ 24 ->
  1000 * ref / pfd <= INT_MAX -> 250 * t / pfd <= INT_MAX ->
  let spec := Spec.counters (inject_Z t) (inject_Z ref) (inject_Z pfd)
                PrescalerBoxIndex in
  counters (of_int t) (of_int ref) (of_int pfd) = Some spec
  /\ cP spec = 16
  /\ cR spec = Z.quot (ref * 1000) pfd
  /\ cN spec = Z.quot (t * 1000) (4 * pfd)
  /\ cB spec = Z.quot (cN spec) (cP spec)
  /\ cN spec = cB spec * cP spec + cA spec
  /\ 0 <= cA spec < cP spec.
Proof.
  intros Ht Ht' Hr Hr' Hp HR HN spec.
  destruct (spec_ratios t ref pfd ltac:(lia)) as [ER EN].
  set (R := 1000 * ref / pfd) in *. set (N := 250 * t / pfd) in *.
  assert (Hspec : spec = mkCounters 16 R N (N / 16) (N - N / 16 * 16)).
  { unfold spec, Spec.counters. rewrite ER, EN. reflexivity. }
  assert (HN0 : 0 <= N) by (apply Z.div_pos; lia).
  rewrite Hspec. cbn [cP cR cN cB cA].
  split; [ | repeat split].
  - unfold counters. change (to_int (pow2 PrescalerBoxIndex)) with (Some 2).
    cbn [mbind option_bind].
    rewrite (to_int_div (mul (of_int ref) (of_int 1000)) (of_int pfd)
               (ref * 1000) pfd);
      [ | apply mul_canon; [apply of_int_canon; lia | apply of_int_canon; lia | lia]
        | apply of_int_canon; lia
        | replace (ref * 1000) with (1000 * ref) by lia; exact HR ].
    cbn [mbind option_bind].
    rewrite (to_int_div _ _ (250 * t) pfd);
      [ | apply quarter_times_1000; [apply of_int_canon; lia | lia]
        | apply of_int_canon; lia
        | exact HN ].
    cbn [mbind option_bind]. change (2 * 8) with 16.
    rewrite Z.quot_div_nonneg by lia.
    replace (ref * 1000) with (1000 * ref) by lia. reflexivity.
  - rewrite Z.quot_div_nonneg by lia. subst R. f_equal. lia.
  - rewrite Z.quot_div_nonneg by lia. subst N.
    replace (t * 1000) with (250 * t * 4) by lia.
    replace (4 * pfd) with (pfd * 4) by lia.
    symmetry. apply Z.div_mul_cancel_r; lia.
  - rewrite Z.quot_div_nonneg by lia. reflexivity.
  - lia.
  - pose proof (Z.mod_pos_bound N 16 ltac:(lia)).
    pose proof (Z.div_mod N 16 ltac:(lia)). lia.
  - pose proof (Z.mod_pos_bound N 16 ltac:(lia)).
    pose proof (Z.div_mod N 16 ltac:(lia)). lia.
Qed.

Lemma C3_counters_integer_frequencies_witness :
  counters (of_int 13070) (of_int RFInputFrequency) (of_int PFDFrequency)
  = Some (Spec.counters (inject_Z 13070) (inject_Z RFInputFrequency)
            (inject_Z PFDFrequency) PrescalerBoxIndex).
Proof.
  refine (proj1 (C3_counters_integer_frequencies 13070 RFInputFrequency
                   PFDFrequency _ _ _ _ _ _ _));
    unfold RFInputFrequency, PFDFrequency;
    first [lia | vm_compute; intros H; discriminate H].
Defined.

(** ** The transmitter and the main loop *)

Module SweepFacts.

Import AVR F32 Sketch CalcFacts.

Lemma load_nat (a : list Z) (i : nat) : load a (Z.of_nat i) = a !! i.
Proof.
  unfold load. replace (0 <=? Z.of_nat i) with true by (symmetry; apply Z.leb_le; lia).
  rewrite Nat2Z.id. reflexivity.
Qed.

Lemma byte_testbit_high (b k : Z) : 0 <= b < 256 -> 8 <= k -> Z.testbit b k = false.
Proof.
  intros Hb Hk. destruct (Z.eq_dec b 0) as [-> | Hne]; [apply Z.bits_0 | ].
  apply Z.bits_above_log2; [lia | ].
  assert (Z.log2 b < 8) by (apply Z.log2_lt_pow2; simpl; lia). lia.
Qed.

(** Bit [k] of the 24-bit word, by the byte it falls in. *)
Lemma word24_testbit (b2 b1 b0 k : Z) :
  0 <= b2 < 256 -> 0 <= b1 < 256 -> 0 <= b0 < 256 -> 0 <= k < 8 ->
  Z.testbit (word24 b2 b1 b0) (16 + k) = Z.testbit b2 k
  /\ Z.testbit (word24 b2 b1 b0) (8 + k) = Z.testbit b1 k
  /\ Z.testbit (word24 b2 b1 b0) k = Z.testbit b0 k.
Proof.
  intros H2 H1 H0 Hk. unfold word24.
  rewrite !Z.lor_spec, !Z.shiftl_spec by lia.
  replace (16 + k - 16) with k by lia. replace (8 + k - 8) with k by lia.
  replace (16 + k - 8) with (8 + k) by lia.
  rewrite (byte_testbit_high b1 (8 + k)), (byte_testbit_high b0 (16 + k)),
    (byte_testbit_high b0 (8 + k)) by lia.
  rewrite (Z.testbit_neg_r b2 (k - 16)), (Z.testbit_neg_r b2 (8 + k - 16)),
    (Z.testbit_neg_r b1 (k - 8)) by lia.
  rewrite !orb_false_r. simpl. auto.
Qed.

(** The bits of a transmission are the bits 23 down to 0 of its word. *)
Lemma wire_word24 (b2 b1 b0 : Z) (nf : bool) :
  0 <= b2 < 256 -> 0 <= b1 < 256 -> 0 <= b0 < 256 ->
  wire MSBFIRST (SPIwrite24bitRegister b2 b1 b0 nf)
  = map (Z.testbit (word24 b2 b1 b0))
      [23; 22; 21; 20; 19; 18; 17; 16; 15; 14; 13; 12; 11; 10; 9; 8;
       7; 6; 5; 4; 3; 2; 1; 0].
Proof.
  intros H2 H1 H0.
  assert (Hbit : forall k, 0 <= k < 8 ->
            Z.testbit (word24 b2 b1 b0) (16 + k) = Z.testbit b2 k
            /\ Z.testbit (word24 b2 b1 b0) (8 + k) = Z.testbit b1 k
            /\ Z.testbit (word24 b2 b1 b0) k = Z.testbit b0 k)
    by (intros k Hk; apply word24_testbit; assumption).
  cbn [map].
  do 8 (match goal with
        | |- context [Z.testbit (word24 b2 b1 b0) ?n] =>
            let k := eval compute in (n - 16) in
            let m := eval compute in (n - 8) in
            destruct (Hbit k ltac:(lia)) as (A & B & C);
            change (16 + k) with n in A; change (8 + k) with m in B;
            rewrite A, B, C; clear A B C
        end).
  destruct nf; reflexivity.
Qed.

(** What the [for] loop of [loop] sends: one call per iteration, each with
    [N2] as most significant byte. *)
Lemma sweep_calls (g : Globals) (k : nat) (i : Z) (l : list Event) :
  sweep k i g = Some l ->
  exists calls : list Call,
    l = flat_map transmit calls /\ length calls = k
    /\ Forall (fun c : Call => c.1.1.1 = N2 g) calls.
Proof.
  revert i l. induction k as [ | k IH]; intros i l H; simpl in H.
  - inversion H. exists []. repeat split. constructor.
  - destruct (load (N1 g) i) as [n1 | ]; [simpl in H | discriminate].
    destruct (load (N0 g) i) as [n0 | ]; [simpl in H | discriminate].
    destruct (sweep k (i + 1) g) as [rest | ] eqn:E; [simpl in H | discriminate].
    destruct (IH _ _ E) as (calls & -> & Hlen & Hall).
    inversion H; subst l.
    exists ((N2 g, n1, n0, (i =? 0)) :: calls). split; [ | split].
    + simpl. destruct (i =? 0); reflexivity.
    + simpl. congruence.
    + constructor; [reflexivity | exact Hall].
Qed.

(** The iterations after the first send the rest of the table without
    sync. *)
Lemma sweep_rest (g : Globals) (p1 p0 l1 l0 : list Z) :
  N1 g = p1 ++ l1 -> N0 g = p0 ++ l0 ->
  length p1 = length p0 -> length l1 = length l0 -> (1 <= length p1)%nat ->
  sweep (length l1) (Z.of_nat (length p1)) g
  = Some (flat_map (fun w => transmit (w, false))
            (zip_with (fun n1 n0 => (N2 g, n1, n0)) l1 l0)).
Proof.
  revert p1 p0 l0. induction l1 as [ | a l1 IH]; intros p1 p0 l0 E1 E0 Hp Hl Hpos.
  - destruct l0; [reflexivity | discriminate].
  - destruct l0 as [ | b l0]; [discriminate | ]. simpl in Hl.
    cbn [length sweep].
    assert (H1 : N1 g !! length p1 = Some a)
      by (rewrite E1; apply list_lookup_middle; reflexivity).
    assert (H0 : N0 g !! length p1 = Some b)
      by (rewrite E0, Hp; apply list_lookup_middle; reflexivity).
    rewrite (load_nat (N1 g)), (load_nat (N0 g)), H1, H0.
    cbn [mbind option_bind].
    replace (Z.of_nat (length p1) + 1) with (Z.of_nat (length (p1 ++ [a])))
      by (rewrite length_app; simpl; lia).
    rewrite (IH (p1 ++ [a]) (p0 ++ [b]) l0).
    + cbn [mbind option_bind].
      replace (Z.of_nat (length p1) =? 0) with false
        by (symmetry; apply Z.eqb_neq; lia).
      reflexivity.
    + rewrite E1, <- app_assoc. reflexivity.
    + rewrite E0, <- app_assoc. reflexivity.
    + rewrite !length_app. simpl. lia.
    + lia.
    + rewrite length_app. lia.
Qed.

End SweepFacts.

(** ** setup *)

Module SetupFacts.

Import AVR F32 Sketch CalcFacts.

(** One iteration of the validation loop: what [populate] does with
    [S k] iterations left. *)
Lemma populate_step (freqs : list Z) (k : nat) (i : Z) (g : Globals)
    (tr : list Event) (o : Outcome) :
  populate freqs (S k) i g = (tr, o) ->
  (o = Undefined /\ tr = [])
  \/ (o = Halted
      /\ (tr = [Serial_println RCounter_message]
          \/ tr = [Serial_println FunctionLatch_message]))
  \/ (exists f g1,
        load freqs i = Some f
        /\ calcRegisters (of_int f) (of_int RFInputFrequency)
             (of_int PFDFrequency) i g = Some g1
        /\ changed (R0 g1) (R1 g1) (R2 g1) (R0A g1) (R1A g1) (R2A g1) i
           = Some false
        /\ changed (F0 g1) (F1 g1) (F2 g1) (F0A g1) (F1A g1) (F2A g1) i
           = Some false
        /\ populate freqs k (i + 1) g1 = (tr, o)).
Proof.
  cbn [populate]. intros H.
  destruct (load freqs i) as [f | ] eqn:Ef; cbn [mbind option_bind] in H;
    [ | inversion H; auto].
  destruct (calcRegisters _ _ _ i g) as [g1 | ] eqn:Ec; [ | inversion H; auto].
  destruct (changed (R0 g1) _ _ _ _ _ i) as [[ | ] | ] eqn:Er;
    [inversion H; auto | | inversion H; auto].
  destruct (changed (F0 g1) _ _ _ _ _ i) as [[ | ] | ] eqn:Ef';
    [inversion H; auto | | inversion H; auto].
  right. right. exists f, g1. auto.
Qed.

(** The validation loop prints at most its one report. *)
Lemma populate_trace (freqs : list Z) (k : nat) (i : Z) (g : Globals)
    (tr : list Event) (o : Outcome) :
  populate freqs k i g = (tr, o) ->
  match o with
  | Halted => tr = [Serial_println RCounter_message]
              \/ tr = [Serial_println FunctionLatch_message]
  | _ => tr = []
  end.
Proof.
  revert i g. induction k as [ | k IH]; intros i g H.
  - inversion H. reflexivity.
  - apply populate_step in H
      as [[-> ->] | [[-> Htr] | (f & g1 & _ & _ & _ & _ & H)]];
      [reflexivity | exact Htr | exact (IH _ _ H)].
Qed.

(** What the validation loop never writes. *)
Lemma populate_frame (freqs : list Z) (k : nat) (i : Z) (g g' : Globals)
    (tr : list Event) :
  populate freqs k i g = (tr, Returned g') ->
  F0A g' = F0A g /\ F1A g' = F1A g /\ F2A g' = F2A g /\ N2 g' = N2 g.
Proof.
  revert i g. induction k as [ | k IH]; intros i g H.
  - inversion H. auto.
  - apply populate_step in H
      as [[? _] | [[? _] | (f & g1 & _ & Hc & _ & _ & H)]]; try discriminate.
    apply IH in H as (-> & -> & -> & ->).
    apply calcRegisters_Some in Hc
      as (c & ? & ? & ? & ? & ? & _ & _ & _ & _ & _ & _ & ->).
    simpl. auto.
Qed.

(** The latch bytes are those of the first step. *)
Lemma populate_scalars_later (freqs : list Z) (k : nat) (i : Z) (g g' : Globals)
    (tr : list Event) :
  0 < i -> populate freqs k i g = (tr, Returned g') ->
  (R2 g', R1 g', R0 g') = (R2 g, R1 g, R0 g)
  /\ (F2 g', F1 g', F0 g') = (F2 g, F1 g, F0 g).
Proof.
  revert i g. induction k as [ | k IH]; intros i g Hi H.
  - inversion H. auto.
  - apply populate_step in H
      as [[? _] | [[? _] | (f & g1 & _ & Hc & _ & _ & H)]]; try discriminate.
    apply IH in H as [-> ->]; [ | lia].
    apply calcRegisters_Some in Hc
      as (c & ? & ? & ? & ? & ? & _ & _ & _ & _ & _ & _ & ->).
    simpl. replace (i =? 0) with false by (symmetry; apply Z.eqb_neq; lia).
    auto.
Qed.

Lemma populate_function_word (freqs : list Z) (k : nat) (g g' : Globals)
    (tr : list Event) :
  populate freqs (S k) 0 g = (tr, Returned g') ->
  (F2 g', F1 g', F0 g') = (0x4D, 0x80, 0x02)
  /\ exists f c,
       freqs !! 0%nat = Some f
       /\ counters (of_int f) (of_int RFInputFrequency) (of_int PFDFrequency)
          = Some c
       /\ (R2 g', R1 g', R0 g')
          = (lowByte (shr (word_R c) 16), lowByte (shr (word_R c) 8),
             lowByte (word_R c)).
Proof.
  intros H.
  apply populate_step in H
    as [[? _] | [[? _] | (f & g1 & Hf & Hc & _ & _ & H)]]; try discriminate.
  apply populate_scalars_later in H as [HR HF]; [ | lia].
  apply calcRegisters_Some in Hc
    as (c & ? & ? & ? & ? & ? & Hcnt & _ & _ & _ & _ & _ & ->).
  simpl in HR, HF. split; [exact HF | ].
  exists f, c. repeat split; assumption.
Qed.

(** When [setup] returns, the validation loop printed nothing. *)
Lemma setup_Returned (g0 : Globals) (freqs : list Z) (tr : list Event)
    (g : Globals) :
  setup_from g0 freqs = (tr, Returned g) ->
  populate freqs (length freqs) 0 g0 = ([], Returned g)
  /\ tr = [DDRD_or B11000000; PORTD_write B00000000; Serial_begin 9600]
          ++ program_latches g.
Proof.
  unfold setup_from.
  destruct (populate freqs (length freqs) 0 g0) as [tr' o] eqn:E.
  pose proof (populate_trace _ _ _ _ _ _ E) as Htr.
  destruct o; intros H; inversion H; subst. split; reflexivity.
Qed.

(** When [setup] does not return, its last effect is the report. *)
Lemma setup_Halted (g0 : Globals) (freqs : list Z) (tr : list Event) :
  setup_from g0 freqs = (tr, Halted) ->
  exists msg,
    tr = [DDRD_or B11000000; PORTD_write B00000000; Serial_begin 9600;
          Serial_println msg]
    /\ (msg = RCounter_message \/ msg = FunctionLatch_message).
Proof.
  unfold setup_from.
  destruct (populate freqs (length freqs) 0 g0) as [tr' o] eqn:E.
  pose proof (populate_trace _ _ _ _ _ _ E) as Htr.
  destruct o; intros H; inversion H; subst.
  destruct Htr as [-> | ->]; eexists; split; eauto.
Qed.

End SetupFacts.

Import SweepFacts SetupFacts.

(** ** The transmitter *)

(** C8. Once [setup] has returned, every call of [SPIwrite24bitRegister]
    produces, in this order: the three bytes shifted out most significant
    byte first (on the wire, bits 23 down to 0 of the word, in the MSB-first
    order and the data mode 0 that [setup] configured: clock idle low,
    sampled on the rising edge); latch enable raised, together with sync
    exactly when [NewFrame] is true; a wait of the pulse width; both lines
    lowered; a wait of the inter-word delay minus the pulse width. *)
Theorem C8_transmitter_sequence
    (g0 : Globals) (freqs : list Z) (tr : list Event) (g : Globals)
    (b23to16 b15to8 b7to0 : Z) (NewFrame : bool) :
  setup_from g0 freqs = (tr, Returned g) ->
  0 <= b23to16 < 256 -> 0 <= b15to8 < 256 -> 0 <= b7to0 < 256 ->
  let raised := if NewFrame then B11000000 else B10000000 in
  SPIwrite24bitRegister b23to16 b15to8 b7to0 NewFrame
  = [SPI_transfer b23to16; SPI_transfer b15to8; SPI_transfer b7to0;
     PORTD_write raised;
     delayMicroseconds PULSE_DURATION;
     PORTD_write B00000000;
     delayMicroseconds (DWELL_TIME - PULSE_DURATION)]
  /\ (LE raised = true /\ SI raised = NewFrame)
  /\ (LE B00000000 = false /\ SI B00000000 = false)
  /\ spi_config tr = mkSpi MSBFIRST SPI_MODE0
  /\ (clock_idle_low (dataMode (spi_config tr)) = true
      /\ sample_on_rising_edge (dataMode (spi_config tr)) = true)
  /\ wire (bitOrder (spi_config tr))
       (SPIwrite24bitRegister b23to16 b15to8 b7to0 NewFrame)
     = map (Z.testbit (word24 b23to16 b15to8 b7to0))
         [23; 22; 21; 20; 19; 18; 17; 16; 15; 14; 13; 12; 11; 10; 9; 8;
          7; 6; 5; 4; 3; 2; 1; 0].
Proof.
  intros Hs H2 H1 H0 raised.
  apply setup_Returned in Hs as [_ ->].
  assert (Hcfg : spi_config
                   ([DDRD_or B11000000; PORTD_write B00000000; Serial_begin 9600]
                    ++ program_latches g) = mkSpi MSBFIRST SPI_MODE0)
    by reflexivity.
  rewrite Hcfg. cbn [bitOrder dataMode].
  split; [destruct NewFrame; reflexivity | ].
  split; [subst raised; destruct NewFrame; split; reflexivity | ].
  split; [split; reflexivity | ].
  split; [reflexivity | ].
  split; [split; reflexivity | ].
  apply wire_word24; assumption.
Qed.

Lemma C8_transmitter_sequence_witness :
  SPIwrite24bitRegister 0x00 0x82 0x0D true
  = [SPI_transfer 0x00; SPI_transfer 0x82; SPI_transfer 0x0D;
     PORTD_write B11000000;
     delayMicroseconds PULSE_DURATION;
     PORTD_write B00000000;
     delayMicroseconds (DWELL_TIME - PULSE_DURATION)].
Proof.
  refine (proj1 (C8_transmitter_sequence (initial 0) [] _ _ 0x00 0x82 0x0D true
                   _ _ _ _)).
  - vm_compute. reflexivity.
  - lia.
  - lia.
  - lia.
Defined.

(** ** The main loop *)

(** C5. For every sweep table of length N >= 1 a call of [loop] makes
    exactly N + 1 transmissions and then the inter-pass pause: the N table
    entries in order, with [NewFrame] true on the first only, then the
    first entry once more with [NewFrame] false. *)
Theorem C5_pass_transmissions (g : Globals) :
  length (N1 g) = length (N0 g) -> (1 <= length (N0 g))%nat ->
  loop g = Some (flat_map transmit (Spec.pass (table g)) ++ delayer SWEEP_PAUSE)
  /\ length (Spec.pass (table g)) = S (length (N0 g))
  /\ map snd (Spec.pass (table g)) = true :: replicate (length (N0 g)) false
  /\ map fst (Spec.pass (table g)) = table g ++ take 1 (table g).
Proof.
  intros Hlen Hpos. unfold table.
  destruct (N1 g) as [ | n1 l1] eqn:E1; [simpl in Hlen; lia | ].
  destruct (N0 g) as [ | n0 l0] eqn:E0; [simpl in Hpos; lia | ].
  simpl in Hlen. injection Hlen as Hlen.
  cbn [zip_with Spec.pass]. split; [ | split; [ | split]].
  - unfold loop. rewrite E0. cbn [length sweep]. rewrite E1, E0.
    change (load (n1 :: l1) 0) with (Some n1).
    change (load (n0 :: l0) 0) with (Some n0). cbn [mbind option_bind].
    rewrite <- Hlen. change (0 + 1) with (Z.of_nat (length [n1])).
    rewrite (sweep_rest g [n1] [n0] l1 l0 E1 E0 eq_refl Hlen ltac:(simpl; lia)).
    cbn [mbind option_bind Z.eqb flat_map]. f_equal.
    rewrite flat_map_app. cbn [flat_map transmit]. rewrite app_nil_r.
    rewrite <- !app_assoc. do 2 f_equal.
    induction (zip_with _ l1 l0) as [ | w ws IHws]; [reflexivity | ].
    cbn [map flat_map]. rewrite IHws. reflexivity.
  - cbn [length]. rewrite length_app, length_map, length_zip_with. simpl. lia.
  - cbn [map snd]. rewrite map_app, map_map. cbn [map snd]. f_equal.
    assert (Hz : length (zip_with (fun n2 n3 => (N2 g, n2, n3)) l1 l0) = length l0)
      by (rewrite length_zip_with; lia).
    cbn [length]. rewrite <- Hz. clear Hz.
    induction (zip_with _ l1 l0) as [ | w ws IHws]; [reflexivity | ].
    cbn [map app length]. rewrite IHws. reflexivity.
  - cbn [map fst take]. rewrite map_app, map_map. cbn [map fst].
    rewrite map_id. reflexivity.
Qed.

Lemma C5_pass_transmissions_witness :
  let g := mkGlobals [13; 29] [130; 130] 0 145 1 64 [64; 64] [1; 1] [145; 145]
             77 128 2 [2; 2] [128; 128] [77; 77] in
  loop g
  = Some (flat_map transmit
            [(0, 130, 13, true); (0, 130, 29, false); (0, 130, 13, false)]
          ++ delayer SWEEP_PAUSE).
Proof.
  intros g.
  refine (proj1 (C5_pass_transmissions g _ _)).
  - reflexivity.
  - simpl. lia.
Defined.

(** Every pass sends calls whose first byte is [N2]. *)
Lemma passes_calls (g : Globals) (n : nat) (l : list Event) :
  passes n g = Some l ->
  exists calls : list (list Call),
    l = flat_map (fun cs => flat_map transmit cs ++ delayer SWEEP_PAUSE) calls
    /\ length calls = n
    /\ Forall (fun cs => length cs = S (length (N0 g))
                         /\ Forall (fun c : Call => c.1.1.1 = N2 g) cs) calls.
Proof.
  revert l. induction n as [ | n IH]; intros l H; simpl in H.
  - inversion H. exists []. repeat split. constructor.
  - destruct (loop g) as [l1 | ] eqn:El; [simpl in H | discriminate].
    destruct (passes n g) as [l2 | ] eqn:Ep; [simpl in H | discriminate].
    inversion H; subst l. destruct (IH _ eq_refl) as (calls & -> & Hn & Hall).
    unfold loop in El.
    destruct (sweep (length (N0 g)) 0 g) as [body | ] eqn:Es;
      [simpl in El | discriminate].
    destruct (load (N1 g) 0) as [n1 | ]; [simpl in El | discriminate].
    destruct (load (N0 g) 0) as [n0 | ]; [simpl in El | discriminate].
    inversion El; subst l1.
    apply sweep_calls in Es as (cs & -> & Hlen & Hcs).
    exists ((cs ++ [(N2 g, n1, n0, false)]) :: calls). split; [ | split].
    + cbn [flat_map]. rewrite flat_map_app. cbn [flat_map transmit].
      rewrite app_nil_r, <- !app_assoc. reflexivity.
    + simpl. congruence.
    + constructor; [ | exact Hall]. split.
      * rewrite length_app. simpl. lia.
      * apply Forall_app. split; [exact Hcs | ]. constructor; [reflexivity | constructor].
Qed.

(** C10. Every feedback word the main loop transmits, in every step of
    every pass, has the constant [N2 = 0x00] as most significant byte:
    only the two low bytes of the computed feedback register value reach
    the chip. *)
Theorem C10_feedback_msb_zero
    (g0 : Globals) (freqs : list Z) (n : nat) (l : list Event) :
  N2 g0 = 0x00 ->
  run_from g0 freqs n = Some l ->
  (exists tr,
     setup_from g0 freqs = (tr, Halted) /\ l = tr ++ replicate n (delay 1))
  \/ (exists tr g (calls : list (list Call)),
        setup_from g0 freqs = (tr, Returned g)
        /\ l = tr ++ flat_map (fun cs => flat_map transmit cs ++ delayer SWEEP_PAUSE)
                       calls
        /\ length calls = n
        /\ Forall (fun cs => length cs = S (length (N0 g))
                             /\ Forall (fun c : Call => c.1.1.1 = 0x00) cs) calls).
Proof.
  intros HN2 H. unfold run_from in H.
  destruct (setup_from g0 freqs) as [tr o] eqn:Es.
  destruct o as [g | | ]; [ | inversion H; eauto | discriminate].
  right. destruct (passes n g) as [r | ] eqn:Ep; [simpl in H | discriminate].
  inversion H; subst l.
  apply passes_calls in Ep as (calls & -> & Hn & Hall).
  apply setup_Returned in Es as Hs. destruct Hs as [Hp _].
  apply populate_frame in Hp as (_ & _ & _ & HN).
  rewrite HN, HN2 in Hall. eauto 10.
Qed.

Lemma C10_feedback_msb_zero_witness :
  let g0 := mkGlobals [0] [0] 0 0 0 0 [0] [0] [0] 0 0 0 [2] [128] [77] in
  exists l,
    N2 g0 = 0x00
    /\ run_from g0 [10415] 2 = Some l
    /\ ((exists tr,
           setup_from g0 [10415] = (tr, Halted) /\ l = tr ++ replicate 2 (delay 1))
        \/ (exists tr g (calls : list (list Call)),
              setup_from g0 [10415] = (tr, Returned g)
              /\ l = tr ++ flat_map (fun cs => flat_map transmit cs
                                               ++ delayer SWEEP_PAUSE) calls
              /\ length calls = 2%nat
              /\ Forall (fun cs => length cs = S (length (N0 g))
                                   /\ Forall (fun c : Call => c.1.1.1 = 0x00) cs)
                        calls)).
Proof.
  intros g0. eexists. split; [reflexivity | ].
  split; [vm_compute; reflexivity | ].
  apply (C10_feedback_msb_zero g0 [10415] 2); [reflexivity | ].
  vm_compute. reflexivity.
Defined.

(** The computed feedback word can have bits above bit 15: for 20480 MHz
    bit 16 is set, and the transmitted bytes are [0x00 0x00 0x01]. *)
Lemma feedback_high_bits_dropped :
  exists c,
    counters (of_int 20480) (of_int RFInputFrequency) (of_int PFDFrequency)
    = Some c
    /\ word_N c = 0x010001
    /\ (N2 (initial 1), lowByte (shr (word_N c) 8), lowByte (word_N c))
       = (0x00, 0x00, 0x01).
Proof. eexists. split; [vm_compute; reflexivity | split; reflexivity]. Qed.

(** ** Initialisation and the consistency check *)

(** C6. Once the consistency check has found a mismatch, [setup] prints its
    report and never returns: whatever the number of rounds of the halt
    loop, the run is the effects before the report, the report, and
    nothing but [delay(1)] after it.  Nothing was shifted out and neither
    latch enable nor sync was raised, before the report or after. *)
Theorem C6_halt_is_silent (g0 : Globals) (freqs : list Z) (tr : list Event) :
  setup_from g0 freqs = (tr, Halted) ->
  exists pre msg,
    tr = pre ++ [Serial_println msg]
    /\ (msg = RCounter_message \/ msg = FunctionLatch_message)
    /\ existsb bus_output pre = false
    /\ forall n : nat,
         run_from g0 freqs n
         = Some (pre ++ Serial_println msg :: replicate n (delay 1))
         /\ existsb bus_output (replicate n (delay 1)) = false.
Proof.
  intros H. pose proof (setup_Halted _ _ _ H) as (msg & -> & Hmsg).
  exists [DDRD_or B11000000; PORTD_write B00000000; Serial_begin 9600], msg.
  split; [reflexivity | split; [exact Hmsg | split; [reflexivity | ]]].
  intros n. split.
  - unfold run_from. rewrite H. reflexivity.
  - induction n as [ | n IH]; [reflexivity | exact IH].
Qed.

Lemma C6_halt_is_silent_witness :
  exists pre msg,
    fst (setup freqVec) = pre ++ [Serial_println msg]
    /\ (msg = RCounter_message \/ msg = FunctionLatch_message)
    /\ existsb bus_output pre = false
    /\ forall n : nat,
         run freqVec n = Some (pre ++ Serial_println msg :: replicate n (delay 1))
         /\ existsb bus_output (replicate n (delay 1)) = false.
Proof.
  apply (C6_halt_is_silent (initial (length freqVec)) freqVec).
  vm_compute. reflexivity.
Defined.

(** C7. When validation passes, [setup] transmits the function word once
    and then the reference word once, each with latch enable alone (sync
    stays low), each followed by the pulse width and the rest of the
    inter-word delay, [DWELL_TIME] in all; these are the only bytes shifted
    out before the first call of [loop], and every feedback word comes
    after them. *)
Theorem C7_initialisation_sequence
    (g0 : Globals) (freqs : list Z) (tr : list Event) (g : Globals) :
  setup_from g0 freqs = (tr, Returned g) ->
  tr = [DDRD_or B11000000; PORTD_write B00000000; Serial_begin 9600;
        SPI_begin; SPI_setBitOrder MSBFIRST; SPI_setDataMode SPI_MODE0;
        SPI_setClockDivider SPI_CLOCK_DIV2;
        delayMicroseconds SWEEP_PAUSE;
        SPI_transfer (F2 g); SPI_transfer (F1 g); SPI_transfer (F0 g);
        PORTD_write B10000000; delayMicroseconds PULSE_DURATION;
        PORTD_write B00000000; delayMicroseconds (DWELL_TIME - PULSE_DURATION);
        SPI_transfer (R2 g); SPI_transfer (R1 g); SPI_transfer (R0 g);
        PORTD_write B10000000; delayMicroseconds PULSE_DURATION;
        PORTD_write B00000000; delayMicroseconds (DWELL_TIME - PULSE_DURATION)]
  /\ (LE B10000000 = true /\ SI B10000000 = false)
  /\ PULSE_DURATION + (DWELL_TIME - PULSE_DURATION) = DWELL_TIME
  /\ (freqs <> [] -> (F2 g, F1 g, F0 g) = (0x4D, 0x80, 0x02))
  /\ forall (n : nat) (l : list Event),
       run_from g0 freqs n = Some l ->
       exists calls : list (list Call),
         l = tr ++ flat_map (fun cs => flat_map transmit cs ++ delayer SWEEP_PAUSE)
                      calls
         /\ length calls = n.
Proof.
  intros H. pose proof (setup_Returned _ _ _ _ H) as [Hp ->].
  split; [reflexivity | split; [split; reflexivity | split; [reflexivity | split]]].
  - intros Hne. destruct freqs as [ | f freqs]; [congruence | ].
    apply (populate_function_word _ _ _ _ _ Hp).
  - intros n l Hrun. unfold run_from in Hrun. rewrite H in Hrun.
    destruct (passes n g) as [r | ] eqn:Ep; [simpl in Hrun | discriminate].
    inversion Hrun; subst l.
    apply passes_calls in Ep as (calls & -> & Hn & _). eauto.
Qed.

(** With the function latch arrays already holding the function word,
    validation passes for a one-entry sweep. *)
Lemma C7_initialisation_sequence_witness :
  let g0 := mkGlobals [0] [0] 0 0 0 0 [0] [0] [0] 0 0 0 [2] [128] [77] in
  exists tr g,
    setup_from g0 [10415] = (tr, Returned g)
    /\ tr = [DDRD_or B11000000; PORTD_write B00000000; Serial_begin 9600;
             SPI_begin; SPI_setBitOrder MSBFIRST; SPI_setDataMode SPI_MODE0;
             SPI_setClockDivider SPI_CLOCK_DIV2;
             delayMicroseconds SWEEP_PAUSE;
             SPI_transfer (F2 g); SPI_transfer (F1 g); SPI_transfer (F0 g);
             PORTD_write B10000000; delayMicroseconds PULSE_DURATION;
             PORTD_write B00000000;
             delayMicroseconds (DWELL_TIME - PULSE_DURATION);
             SPI_transfer (R2 g); SPI_transfer (R1 g); SPI_transfer (R0 g);
             PORTD_write B10000000; delayMicroseconds PULSE_DURATION;
             PORTD_write B00000000;
             delayMicroseconds (DWELL_TIME - PULSE_DURATION)].
Proof.
  intros g0. do 2 eexists. split; [vm_compute; reflexivity | ].
  refine (proj1 (C7_initialisation_sequence g0 [10415] _ _ _)).
  vm_compute. reflexivity.
Defined.

(** From the initial globals the check cannot pass for any sweep whose
    first frequency [calcRegisters] accepts: [F0A], [F1A], [F2A] are never
    written, so [F0 != F0A[0]] compares [0x02] with 0. *)
Lemma guard_halts_at_first_step (f : Z) (freqs : list Z) (g1 : Globals) :
  calcRegisters (of_int f) (of_int RFInputFrequency) (of_int PFDFrequency) 0
    (initial (length (f :: freqs))) = Some g1 ->
  setup (f :: freqs)
  = ([DDRD_or B11000000; PORTD_write B00000000; Serial_begin 9600;
      Serial_println FunctionLatch_message], Halted).
Proof.
  intros Hc. unfold setup, setup_from.
  change (length (f :: freqs)) with (S (length freqs)) in *.
  assert (Hpop : populate (f :: freqs) (S (length freqs)) 0
                   (initial (S (length freqs)))
                 = ([Serial_println FunctionLatch_message], Halted)).
  { cbn [populate]. change (load (f :: freqs) 0) with (Some f).
    cbn [mbind option_bind]. rewrite Hc.
    apply calcRegisters_Some in Hc
      as (c & N0' & N1' & R0A' & R1A' & R2A' & _ & _ & _ & E0 & E1 & E2 & ->).
    unfold changed. cbn [R0 R1 R2 R0A R1A R2A F0 F1 F2 F0A F1A F2A initial].
    rewrite (load_store_eq _ _ _ _ E0), (load_store_eq _ _ _ _ E1),
      (load_store_eq _ _ _ _ E2).
    cbn [mbind option_bind Z.eqb]. rewrite !Z.eqb_refl.
    reflexivity. }
  rewrite Hpop. reflexivity.
Qed.

(** C1 (the code departs from it). On the frequency vector the sketch ships
    with, every step's recomputed reference word is [0x910140] and every
    step's function word is [0x4D8002], the same as the first step's; yet
    [setup] reports "Function Latch changed during sweep" at the first step
    and halts. *)
Theorem C1_guard_rejects_consistent_sweep :
  Forall (fun f =>
            (c ← counters (of_int f) (of_int RFInputFrequency)
                   (of_int PFDFrequency);
             w ← words c; Some (wR w, wF w)) = Some (0x910140, 0x4D8002))
         freqVec
  /\ setup freqVec
     = ([DDRD_or B11000000; PORTD_write B00000000; Serial_begin 9600;
         Serial_println FunctionLatch_message], Halted).
Proof.
  split.
  - repeat (constructor; [vm_compute; reflexivity | ]). constructor.
  - vm_compute. reflexivity.
Qed.

(** * Further properties of the code *)

(** ** Bytes and words *)

Module ByteFacts.

Import AVR Sketch.

Lemma testbit_high (w k n : Z) :
  0 <= w < 2 ^ k -> 0 <= k <= n -> Z.testbit w n = false.
Proof.
  intros Hw Hk. destruct (Z.eq_dec w 0) as [-> | Hne]; [apply Z.bits_0 | ].
  apply Z.bits_above_log2; [lia | ].
  assert (Z.log2 w < k) by (apply Z.log2_lt_pow2; lia). lia.
Qed.

Lemma testbit_255 (k : Z) : Z.testbit 255 k = (0 <=? k) && (k <? 8).
Proof. change 255 with (Z.ones 8). apply Z.testbit_ones. lia. Qed.



Ltac bool_cases :=
  repeat match goal with
         | |- context [?a <? ?b] => destruct (Z.ltb_spec a b)
         | |- context [?a <=? ?b] => destruct (Z.leb_spec a b)
         end;
  try lia.

(** Bit [n] of the word made of the three low bytes of [w], [w >> 8] and
    [w >> 16]. *)
Lemma word24_bytes_testbit (w n : Z) :
  0 <= n ->
  Z.testbit (word24 (lowByte (shr w 16)) (lowByte (shr w 8)) (lowByte w)) n
  = Z.testbit w n && (n <? 24).
Proof.
  intros Hn. unfold word24, lowByte, shr.
  rewrite !Z.lor_spec, !Z.shiftl_spec, !Z.land_spec, !testbit_255 by lia.
  destruct (Z_lt_ge_dec n 8) as [H8 | H8];
    [ | destruct (Z_lt_ge_dec n 16) as [H16 | H16]].
  - rewrite (Z.testbit_neg_r _ (n - 16)), (Z.testbit_neg_r _ (n - 8)) by lia.
    bool_cases. simpl. rewrite andb_true_r. reflexivity.
  - rewrite (Z.testbit_neg_r _ (n - 16)), Z.shiftr_spec by lia.
    replace (n - 8 + 8) with n by lia.
    bool_cases. simpl. rewrite !andb_true_r, andb_false_r, orb_false_r.
    reflexivity.
  - rewrite !Z.shiftr_spec by lia.
    replace (n - 8 + 8) with n by lia. replace (n - 16 + 16) with n by lia.
    bool_cases; simpl; rewrite ?andb_true_r, ?andb_false_r, ?orb_false_r;
      reflexivity.
Qed.

(** Splitting a 24-bit word into its three bytes and putting them together
    again gives the word back. *)
Lemma word24_bytes (w : Z) :
  0 <= w < 2 ^ 24 ->
  word24 (lowByte (shr w 16)) (lowByte (shr w 8)) (lowByte w) = w.
Proof.
  intros Hw. apply Z.bits_inj'. intros n Hn. rewrite word24_bytes_testbit by lia.
  destruct (Z.ltb_spec n 24); [apply andb_true_r | ].
  rewrite (testbit_high w 24 n) by lia. reflexivity.
Qed.

(** With a zero most significant byte only the low 16 bits remain. *)
Lemma word24_low16 (w : Z) :
  word24 0 (lowByte (shr w 8)) (lowByte w) = w mod 2 ^ 16.
Proof.
  apply Z.bits_inj'. intros n Hn.
  rewrite <- Z.land_ones by lia. rewrite Z.land_spec, Z.testbit_ones by lia.
  unfold word24, lowByte, shr.
  rewrite !Z.lor_spec, Z.shiftl_0_l, Z.bits_0, orb_false_l, Z.shiftl_spec,
    !Z.land_spec, !testbit_255 by lia.
  destruct (Z_lt_ge_dec n 8) as [H8 | H8].
  - rewrite (Z.testbit_neg_r _ (n - 8)) by lia.
    bool_cases. simpl. rewrite andb_true_r. reflexivity.
  - rewrite Z.shiftr_spec by lia. replace (n - 8 + 8) with n by lia.
    bool_cases; simpl; rewrite ?andb_true_r, ?andb_false_r, ?orb_false_r;
      reflexivity.
Qed.

Lemma word_R_range (c : Counters) : 0 <= word_R c < 2 ^ 24.
Proof.
  unfold word_R. change 0x3FFF with (Z.ones 14). rewrite Z.land_ones by lia.
  pose proof (Z.mod_pos_bound (cR c) (2 ^ 14) ltac:(lia)). lia.
Qed.

Lemma word_N_range (c : Counters) : 0 <= word_N c < 2 ^ 24.
Proof.
  unfold word_N. change 0x1FFF with (Z.ones 13). change 0x3F with (Z.ones 6).
  rewrite !Z.land_ones by lia.
  pose proof (Z.mod_pos_bound (cB c) (2 ^ 13) ltac:(lia)).
  pose proof (Z.mod_pos_bound (cA c) (2 ^ 6) ltac:(lia)). lia.
Qed.

(** What [(int)] can return. *)
Lemma to_int_range (x : F32.float) (z : Z) :
  F32.to_int x = Some z -> INT_MIN <= z <= INT_MAX.
Proof.
  unfold F32.to_int. destruct (F32.trunc x) as [t | ]; [ | discriminate].
  cbn [mbind option_bind]. unfold in_int.
  destruct (INT_MIN <=? t) eqn:E1, (t <=? INT_MAX) eqn:E2; try discriminate.
  intros H. inversion H; subst. apply Z.leb_le in E1. apply Z.leb_le in E2. lia.
Qed.

(** The counters are [int]s, and [B], [A] split [N] by 16. *)
Lemma counters_range (t r p : F32.float) (c : Counters) :
  counters t r p = Some c ->
  cP c = 16
  /\ INT_MIN <= cR c <= INT_MAX /\ INT_MIN <= cN c <= INT_MAX
  /\ cB c = Z.quot (cN c) 16 /\ cA c = cN c - cB c * 16.
Proof.
  unfold counters. change (F32.to_int (F32.pow2 PrescalerBoxIndex)) with (Some 2).
  cbn [mbind option_bind].
  destruct (F32.to_int (F32.div (F32.mul r _) p)) as [R | ] eqn:ER; [ | discriminate].
  apply to_int_range in ER. cbn [mbind option_bind].
  destruct (F32.to_int (F32.div (F32.mul _ _) p)) as [N | ] eqn:EN; [ | discriminate].
  apply to_int_range in EN.
  cbn [mbind option_bind]. intros H. inversion H; subst; clear H.
  cbn [cP cR cN cB cA].
  change (2 * 8) with 16. auto.
Qed.

End ByteFacts.

(** ** More on calcRegisters *)

Module CalcMore.

Import AVR F32 Sketch WordFacts CalcFacts ByteFacts.

(** The converse of [calcRegisters_Some]: with counters and array slots
    the call is defined, and this is its result. *)
Lemma calcRegisters_intro (t r p : float) (i : Z) (g : Globals) (c : Counters)
    (N0' N1' R0A' R1A' R2A' : list Z) :
  counters t r p = Some c ->
  store (N0 g) i (lowByte (word_N c)) = Some N0' ->
  store (N1 g) i (lowByte (shr (word_N c) 8)) = Some N1' ->
  store (R0A g) i (lowByte (word_R c)) = Some R0A' ->
  store (R1A g) i (lowByte (shr (word_R c) 8)) = Some R1A' ->
  store (R2A g) i (lowByte (shr (word_R c) 16)) = Some R2A' ->
  calcRegisters t r p i g
  = Some {| N0 := N0'; N1 := N1'; N2 := N2 g;
            R2 := if i =? 0 then lowByte (shr (word_R c) 16) else R2 g;
            R1 := if i =? 0 then lowByte (shr (word_R c) 8) else R1 g;
            R0 := if i =? 0 then lowByte (word_R c) else R0 g;
            R0A := R0A'; R1A := R1A'; R2A := R2A';
            F2 := if i =? 0 then lowByte (shr word_F 16) else F2 g;
            F1 := if i =? 0 then lowByte (shr word_F 8) else F1 g;
            F0 := if i =? 0 then lowByte word_F else F0 g;
            F0A := F0A g; F1A := F1A g; F2A := F2A g |}.
Proof.
  intros Hc E0 E1 E2 E3 E4. unfold calcRegisters.
  rewrite Hc. cbn [mbind option_bind]. rewrite words_exact.
  cbn [mbind option_bind wN wR wF]. rewrite E0. cbn [mbind option_bind].
  rewrite E1. cbn [mbind option_bind]. rewrite E2, E3, E4.
  destruct (i =? 0); reflexivity.
Qed.

Lemma store_again (a a' : list Z) (i v : Z) :
  store a i v = Some a' -> store a' i v = Some a'.
Proof.
  intros H. apply store_Some in H as [Hi ->].
  rewrite store_in_range by (rewrite length_insert; lia).
  rewrite list_insert_insert_eq. reflexivity.
Qed.


(** The counters of an integer-valued input in the range of the design. *)
Lemma counters_integer (t ref pfd : Z) :
  1 <= t -> 250 * t < 2 ^ 24 -> 1 <= ref -> 1000 * ref < 2 ^ 24 ->
  1 <= pfd < 2 ^ 24 ->
  1000 * ref / pfd <= INT_MAX -> 250 * t / pfd <= INT_MAX ->
  counters (of_int t) (of_int ref) (of_int pfd)
  = Some (mkCounters 16 (1000 * ref / pfd) (250 * t / pfd)
            (250 * t / pfd / 16) (250 * t / pfd - 250 * t / pfd / 16 * 16)).
Proof.
  intros Ht Ht' Hr Hr' Hp HR HN.
  assert (HN0 : 0 <= 250 * t / pfd) by (apply Z.div_pos; lia).
  unfold counters. change (to_int (pow2 PrescalerBoxIndex)) with (Some 2).
  cbn [mbind option_bind].
  rewrite (F32Facts.to_int_div (mul (of_int ref) (of_int 1000)) (of_int pfd)
             (ref * 1000) pfd);
    [ | apply F32Facts.mul_canon;
        [apply F32Facts.of_int_canon; lia | apply F32Facts.of_int_canon; lia | lia]
      | apply F32Facts.of_int_canon; lia
      | replace (ref * 1000) with (1000 * ref) by lia; exact HR ].
  cbn [mbind option_bind].
  rewrite (F32Facts.to_int_div _ _ (250 * t) pfd);
    [ | apply F32Facts.quarter_times_1000; [apply F32Facts.of_int_canon; lia | lia]
      | apply F32Facts.of_int_canon; lia
      | exact HN ].
  cbn [mbind option_bind]. change (2 * 8) with 16.
  rewrite Z.quot_div_nonneg by lia.
  replace (ref * 1000) with (1000 * ref) by lia. reflexivity.
Qed.

(** With the sketch's reference and comparison frequency every [int]
    frequency is accepted and [N] is a fifth of it. *)
Lemma counters_sketch (f : Z) :
  1 <= f <= INT_MAX ->
  counters (of_int f) (of_int RFInputFrequency) (of_int PFDFrequency)
  = Some (mkCounters 16 80 (f / 5) (f / 5 / 16) (f / 5 - f / 5 / 16 * 16)).
Proof.
  intros Hf. unfold INT_MAX in Hf.
  assert (E : 250 * f / 1250 = f / 5).
  { replace (250 * f) with (f * 250) by lia. change 1250 with (5 * 250).
    apply Z.div_mul_cancel_r; lia. }
  assert (Hq : 0 <= f / 5 <= 6553) by (Z.div_mod_to_equations; lia).
  assert (HR : 1000 * 100 / 1250 <= 32767) by (vm_compute; discriminate).
  unfold RFInputFrequency, PFDFrequency.
  rewrite (counters_integer f 100 1250)
    by (unfold INT_MAX; rewrite ?E; first [exact HR | lia]).
  rewrite E. reflexivity.
Qed.

(** The reference counter does not depend on the target frequency: with
    the sketch's reference and comparison frequency it is 80. *)
Lemma counters_R_sketch (t : float) (c : Counters) :
  counters t (of_int RFInputFrequency) (of_int PFDFrequency) = Some c ->
  cR c = 80.
Proof.
  unfold counters. change (to_int (pow2 PrescalerBoxIndex)) with (Some 2).
  cbn [mbind option_bind].
  change (to_int (div (mul (of_int RFInputFrequency) (of_int 1000))
                    (of_int PFDFrequency))) with (Some 80).
  cbn [mbind option_bind].
  destruct (to_int _) as [N | ]; [ | discriminate].
  cbn [mbind option_bind]. intros H. inversion H. reflexivity.
Qed.

End CalcMore.

Import ByteFacts CalcMore.

(** X1. The three bytes [calcRegisters] stores for the reference word at
    index [i] put together again give the computed reference word, and at
    index 0 the scalar latch bytes give back the reference word and the
    function word. *)
Theorem X1_latch_bytes_round_trip
    (t r p : float) (i : Z) (g g' : Globals) :
  calcRegisters t r p i g = Some g' ->
  exists c w r2 r1 r0,
    counters t r p = Some c /\ words c = Some w
    /\ load (R2A g') i = Some r2 /\ load (R1A g') i = Some r1
    /\ load (R0A g') i = Some r0
    /\ word24 r2 r1 r0 = wR w
    /\ (i = 0 ->
        word24 (R2 g') (R1 g') (R0 g') = wR w
        /\ word24 (F2 g') (F1 g') (F0 g') = wF w).
Proof.
  intros H.
  apply calcRegisters_Some in H
    as (c & N0' & N1' & R0A' & R1A' & R2A' & Hc & _ & _ & E2 & E3 & E4 & ->).
  exists c, (mkWords (word_R c) (word_N c) word_F).
  exists (lowByte (shr (word_R c) 16)), (lowByte (shr (word_R c) 8)),
    (lowByte (word_R c)).
  cbn [R2A R1A R0A R2 R1 R0 F2 F1 F0 wR wF].
  split; [exact Hc | split; [apply words_exact | ]].
  rewrite (load_store_eq _ _ _ _ E2), (load_store_eq _ _ _ _ E3),
    (load_store_eq _ _ _ _ E4).
  repeat (split; [reflexivity | ]).
  split; [apply word24_bytes, word_R_range | ].
  intros ->. cbn [Z.eqb]. split; [apply word24_bytes, word_R_range | ].
  apply word24_bytes. unfold word_F. lia.
Qed.

Lemma X1_latch_bytes_round_trip_witness :
  exists c w r2 r1 r0,
    counters (of_int 10415) (of_int 100) (of_int 1250) = Some c
    /\ words c = Some w
    /\ load [145] 0 = Some r2 /\ load [1] 0 = Some r1 /\ load [64] 0 = Some r0
    /\ word24 r2 r1 r0 = wR w
    /\ (0 = 0 -> word24 145 1 64 = wR w /\ word24 77 128 2 = wF w).
Proof.
  apply (X1_latch_bytes_round_trip (of_int 10415) (of_int 100) (of_int 1250) 0
           (initial 1)
           (mkGlobals [13] [130] 0 145 1 64 [64] [1] [145] 77 128 2 [0] [0] [0])).
  vm_compute. reflexivity.
Defined.

(** X2. The feedback word is stored in two bytes only: the word the loop
    sends for index [i], [N2] followed by [N1[i]] and [N0[i]], is the
    computed feedback word modulo [2^16].  It is the computed word itself
    when [0 <= N < 4096]. *)
Theorem X2_feedback_word_low16
    (t r p : float) (i : Z) (g g' : Globals) :
  N2 g = 0x00 ->
  calcRegisters t r p i g = Some g' ->
  exists c w n1 n0,
    counters t r p = Some c /\ words c = Some w
    /\ load (N1 g') i = Some n1 /\ load (N0 g') i = Some n0
    /\ word24 (N2 g') n1 n0 = wN w mod 2 ^ 16
    /\ (0 <= cN c < 4096 -> word24 (N2 g') n1 n0 = wN w).
Proof.
  intros HN2 H.
  pose proof H as H'.
  apply calcRegisters_Some in H
    as (c & N0' & N1' & R0A' & R1A' & R2A' & Hc & E0 & E1 & _ & _ & _ & ->).
  exists c, (mkWords (word_R c) (word_N c) word_F).
  exists (lowByte (shr (word_N c) 8)), (lowByte (word_N c)).
  cbn [N0 N1 N2 wN]. rewrite HN2.
  split; [exact Hc | split; [apply words_exact | ]].
  rewrite (load_store_eq _ _ _ _ E0), (load_store_eq _ _ _ _ E1).
  repeat (split; [reflexivity | ]).
  split; [apply word24_low16 | ].
  intros HN. rewrite word24_low16. apply Z.mod_small.
  destruct (counters_range _ _ _ _ Hc) as (_ & _ & _ & HB & HA).
  unfold word_N. change 0x1FFF with (Z.ones 13). change 0x3F with (Z.ones 6).
  rewrite !Z.land_ones by lia.
  rewrite Z.quot_div_nonneg in HB by lia.
  assert (0 <= cB c < 256) by (rewrite HB; Z.div_mod_to_equations; lia).
  assert (0 <= cA c < 16) by (rewrite HA, HB; Z.div_mod_to_equations; lia).
  rewrite !Z.mod_small by lia. lia.
Qed.

Lemma X2_feedback_word_low16_witness :
  exists c w n1 n0,
    counters (of_int 10415) (of_int 100) (of_int 1250) = Some c
    /\ words c = Some w
    /\ load [130] 0 = Some n1 /\ load [13] 0 = Some n0
    /\ word24 0 n1 n0 = wN w mod 2 ^ 16
    /\ (0 <= cN c < 4096 -> word24 0 n1 n0 = wN w).
Proof.
  apply (X2_feedback_word_low16 (of_int 10415) (of_int 100) (of_int 1250) 0
           (initial 1)
           (mkGlobals [13] [130] 0 145 1 64 [64] [1] [145] 77 128 2 [0] [0] [0])).
  - reflexivity.
  - vm_compute. reflexivity.
Defined.

(** X3. The fields can be read back from the words: for a non-negative
    [N] the B field (bits 8 to 20) and the A field (bits 2 to 7) of the
    feedback word are [B] and [A], so [N] is [16 * B + A]; for
    [0 <= R < 16384] the R field (bits 2 to 15) of the reference word is
    [R]. *)
Theorem X3_fields_read_back (t r p : float) (c : Counters) :
  counters t r p = Some c ->
  0 <= cN c ->
  field_B (word_N c) = cB c /\ field_A (word_N c) = cA c
  /\ cN c = 16 * field_B (word_N c) + field_A (word_N c)
  /\ (0 <= cR c < 16384 -> field_R (word_R c) = cR c).
Proof.
  intros Hc HN.
  destruct (counters_range _ _ _ _ Hc) as (_ & _ & HNr & HB & HA).
  unfold INT_MAX in HNr. rewrite Z.quot_div_nonneg in HB by lia.
  assert (Hb : 0 <= cB c < 2048) by (rewrite HB; Z.div_mod_to_equations; lia).
  assert (Ha : 0 <= cA c < 16) by (rewrite HA, HB; Z.div_mod_to_equations; lia).
  assert (EB : field_B (word_N c) = cB c).
  { unfold field_B, word_N, shr.
    change 0x1FFF with (Z.ones 13). change 0x3F with (Z.ones 6).
    rewrite !Z.land_ones, Z.shiftr_div_pow2 by lia.
    rewrite (Z.mod_small (cB c)), (Z.mod_small (cA c)) by lia.
    change (2 ^ 8) with 256. change (2 ^ 13) with 8192.
    Z.div_mod_to_equations. lia. }
  assert (EA : field_A (word_N c) = cA c).
  { unfold field_A, word_N, shr.
    change 0x1FFF with (Z.ones 13). change 0x3F with (Z.ones 6).
    rewrite !Z.land_ones, Z.shiftr_div_pow2 by lia.
    rewrite (Z.mod_small (cB c)), (Z.mod_small (cA c)) by lia.
    change (2 ^ 2) with 4. change (2 ^ 6) with 64.
    Z.div_mod_to_equations. lia. }
  rewrite EB, EA. repeat split; try lia.
  intros HR. unfold field_R, word_R, shr. change 0x3FFF with (Z.ones 14).
  rewrite !Z.land_ones, Z.shiftr_div_pow2 by lia.
  rewrite (Z.mod_small (cR c)) by lia.
  change (2 ^ 2) with 4. change (2 ^ 14) with 16384.
  Z.div_mod_to_equations. lia.
Qed.

Lemma X3_fields_read_back_witness :
  let c := mkCounters 16 80 2083 130 3 in
  field_B (word_N c) = 130 /\ field_A (word_N c) = 3
  /\ 2083 = 16 * field_B (word_N c) + field_A (word_N c)
  /\ (0 <= 80 < 16384 -> field_R (word_R c) = 80).
Proof.
  apply (X3_fields_read_back (of_int 10415) (of_int 100) (of_int 1250)).
  - vm_compute. reflexivity.
  - simpl. lia.
Defined.

(** X4. The swallow counter: for a non-negative [N] it lies in [0, P), and
    from [N = 240] on it does not exceed [B], as dual-modulus division
    needs.  (At [N = 239], [B = 14] and [A = 15].) *)
Theorem X4_swallow_counter (t r p : float) (c : Counters) :
  counters t r p = Some c ->
  0 <= cN c ->
  0 <= cA c < cP c /\ (240 <= cN c -> cA c <= cB c).
Proof.
  intros Hc HN.
  destruct (counters_range _ _ _ _ Hc) as (HP & _ & _ & HB & HA).
  rewrite Z.quot_div_nonneg in HB by lia.
  rewrite HP, HA, HB. split; [ | intros H240]; Z.div_mod_to_equations; lia.
Qed.

Lemma X4_swallow_counter_witness :
  let c := mkCounters 16 80 2083 130 3 in
  0 <= cA c < cP c /\ (240 <= cN c -> cA c <= cB c).
Proof.
  apply (X4_swallow_counter (of_int 10415) (of_int 100) (of_int 1250)).
  - vm_compute. reflexivity.
  - simpl. lia.
Defined.

(** Below 240 the swallow counter can exceed [B]: 1195 MHz gives
    [N = 239], [B = 14], [A = 15]. *)
Lemma swallow_counter_below_240 :
  counters (of_int 1195) (of_int RFInputFrequency) (of_int PFDFrequency)
  = Some (mkCounters 16 80 239 14 15).
Proof. vm_compute. reflexivity. Qed.

(** X5. [calcRegisters] is idempotent: a second call with the same
    arguments leaves the globals as the first call left them. *)
Theorem X5_calcRegisters_idempotent
    (t r p : float) (i : Z) (g g' : Globals) :
  calcRegisters t r p i g = Some g' ->
  calcRegisters t r p i g' = Some g'.
Proof.
  intros H.
  apply calcRegisters_Some in H
    as (c & N0' & N1' & R0A' & R1A' & R2A' & Hc & E0 & E1 & E2 & E3 & E4 & ->).
  rewrite (calcRegisters_intro t r p i _ c N0' N1' R0A' R1A' R2A' Hc);
    cbn [N0 N1 N2 R0 R1 R2 R0A R1A R2A F0 F1 F2 F0A F1A F2A];
    try (eapply store_again; eassumption).
  destruct (i =? 0); reflexivity.
Qed.

Lemma X5_calcRegisters_idempotent_witness :
  let g' := mkGlobals [13] [130] 0 145 1 64 [64] [1] [145] 77 128 2 [0] [0] [0] in
  calcRegisters (of_int 10415) (of_int 100) (of_int 1250) 0 g' = Some g'.
Proof.
  intros g'.
  apply (X5_calcRegisters_idempotent (of_int 10415) (of_int 100) (of_int 1250) 0
           (initial 1) g').
  vm_compute. reflexivity.
Defined.

(** X6. When [calcRegisters] is defined: exactly when both conversions to
    [int] are (the counters exist) and [i] is an index of each of the five
    arrays it writes. *)
Theorem X6_calcRegisters_defined (t r p : float) (i : Z) (g : Globals) :
  (exists g', calcRegisters t r p i g = Some g')
  <-> ((exists c, counters t r p = Some c)
       /\ 0 <= i
       /\ i < Z.of_nat (length (N0 g)) /\ i < Z.of_nat (length (N1 g))
       /\ i < Z.of_nat (length (R0A g)) /\ i < Z.of_nat (length (R1A g))
       /\ i < Z.of_nat (length (R2A g))).
Proof.
  split.
  - intros (g' & H).
    apply calcRegisters_Some in H
      as (c & N0' & N1' & R0A' & R1A' & R2A' & Hc & E0 & E1 & E2 & E3 & E4 & _).
    apply store_Some in E0 as [? _]. apply store_Some in E1 as [? _].
    apply store_Some in E2 as [? _]. apply store_Some in E3 as [? _].
    apply store_Some in E4 as [? _].
    split; [eauto | lia].
  - intros ((c & Hc) & H0 & H1 & H2 & H3 & H4 & H5).
    eexists.
    eapply (calcRegisters_intro t r p i g c); [exact Hc | ..];
      apply store_in_range; lia.
Qed.



(** ** More on setup *)

Module SetupMore.

Import AVR F32 Sketch WordFacts CalcFacts SweepFacts SetupFacts ByteFacts CalcMore.

(** One iteration of the validation loop, with the branch it takes. *)
Lemma populate_cases (freqs : list Z) (k : nat) (i : Z) (g : Globals)
    (tr : list Event) (o : Outcome) :
  populate freqs (S k) i g = (tr, o) ->
  (o = Undefined /\ tr = [])
  \/ exists f g1,
       load freqs i = Some f
       /\ calcRegisters (of_int f) (of_int RFInputFrequency)
            (of_int PFDFrequency) i g = Some g1
       /\ ((changed (R0 g1) (R1 g1) (R2 g1) (R0A g1) (R1A g1) (R2A g1) i
            = Some true
            /\ tr = [Serial_println RCounter_message] /\ o = Halted)
           \/ (changed (R0 g1) (R1 g1) (R2 g1) (R0A g1) (R1A g1) (R2A g1) i
               = Some false
               /\ changed (F0 g1) (F1 g1) (F2 g1) (F0A g1) (F1A g1) (F2A g1) i
                  = Some true
               /\ tr = [Serial_println FunctionLatch_message] /\ o = Halted)
           \/ (changed (R0 g1) (R1 g1) (R2 g1) (R0A g1) (R1A g1) (R2A g1) i
               = Some false
               /\ changed (F0 g1) (F1 g1) (F2 g1) (F0A g1) (F1A g1) (F2A g1) i
                  = Some false
               /\ populate freqs k (i + 1) g1 = (tr, o))).
Proof.
  cbn [populate]. intros H.
  destruct (load freqs i) as [f | ] eqn:Ef; cbn [mbind option_bind] in H;
    [ | inversion H; auto].
  destruct (calcRegisters _ _ _ i g) as [g1 | ] eqn:Ec; [ | inversion H; auto].
  destruct (changed (R0 g1) _ _ _ _ _ i) as [[ | ] | ] eqn:Er;
    [ | | inversion H; auto].
  - inversion H. right. exists f, g1. auto 10.
  - destruct (changed (F0 g1) _ _ _ _ _ i) as [[ | ] | ] eqn:Ef';
      [ | | inversion H; auto].
    + inversion H. right. exists f, g1. auto 10.
    + right. exists f, g1. auto 10.
Qed.

(** With the sketch's reference and comparison frequency the reference
    word of every step is [0x910140], so the reference check finds no
    change, at the first step or after it. *)
Lemma reference_check_passes (f i : Z) (g g1 : Globals) :
  calcRegisters (of_int f) (of_int RFInputFrequency) (of_int PFDFrequency) i g
  = Some g1 ->
  i = 0 \/ (R2 g, R1 g, R0 g) = (0x91, 0x01, 0x40) ->
  changed (R0 g1) (R1 g1) (R2 g1) (R0A g1) (R1A g1) (R2A g1) i = Some false
  /\ (R2 g1, R1 g1, R0 g1) = (0x91, 0x01, 0x40).
Proof.
  intros Hc Hinv.
  apply calcRegisters_Some in Hc
    as (c & ? & ? & R0A' & R1A' & R2A' & Hcnt & _ & _ & E2 & E3 & E4 & ->).
  apply counters_R_sketch in Hcnt.
  assert (HW : word_R c = 0x910140) by (unfold word_R; rewrite Hcnt; reflexivity).
  rewrite HW in *. unfold changed. cbn [R0 R1 R2 R0A R1A R2A].
  rewrite (load_store_eq _ _ _ _ E2), (load_store_eq _ _ _ _ E3),
    (load_store_eq _ _ _ _ E4). cbn [mbind option_bind].
  change (lowByte (shr 0x910140 16)) with 0x91.
  change (lowByte (shr 0x910140 8)) with 0x01.
  change (lowByte 0x910140) with 0x40.
  destruct Hinv as [-> | Hinv].
  - split; reflexivity.
  - inversion Hinv as [[E2' E1' E0']]. rewrite E2', E1', E0'.
    destruct (i =? 0); split; reflexivity.
Qed.

(** The validation loop never reports a change of the R counter. *)
Lemma populate_never_RCounter (freqs : list Z) (k : nat) (i : Z) (g : Globals)
    (tr : list Event) :
  i = 0 \/ (R2 g, R1 g, R0 g) = (0x91, 0x01, 0x40) ->
  populate freqs k i g = (tr, Halted) ->
  tr = [Serial_println FunctionLatch_message].
Proof.
  revert i g. induction k as [ | k IH]; intros i g Hinv H; [discriminate | ].
  apply populate_cases in H as [[? _] | (f & g1 & _ & Hc & Hcase)];
    [discriminate | ].
  destruct (reference_check_passes f i g g1 Hc Hinv) as [HR Hg1].
  destruct Hcase as [(Er & _) | [(_ & _ & -> & _) | (_ & _ & Hrec)]].
  - congruence.
  - reflexivity.
  - apply (IH (i + 1) g1); [right; exact Hg1 | exact Hrec].
Qed.

(** When [setup] returns, the tables hold, in the order of the frequency
    vector, the two low bytes of each frequency's feedback word. *)
Lemma populate_table (freqs : list Z) (k i : nat) (g g' : Globals)
    (tr : list Event) :
  populate freqs k (Z.of_nat i) g = (tr, Returned g') ->
  (forall j : nat, (j < i)%nat ->
     N0 g' !! j = N0 g !! j /\ N1 g' !! j = N1 g !! j)
  /\ (forall (j : nat) (f : Z), (i <= j < i + k)%nat -> freqs !! j = Some f ->
        exists c,
          counters (of_int f) (of_int RFInputFrequency) (of_int PFDFrequency)
          = Some c
          /\ N1 g' !! j = Some (lowByte (shr (word_N c) 8))
          /\ N0 g' !! j = Some (lowByte (word_N c))).
Proof.
  revert i g. induction k as [ | k IH]; intros i g H.
  - inversion H; subst. split; [auto | intros j f Hj; lia].
  - apply populate_cases in H as [[? _] | (f0 & g1 & Hf0 & Hc & Hcase)];
      [discriminate | ].
    destruct Hcase as [(_ & _ & ?) | [(_ & _ & _ & ?) | (_ & _ & Hrec)]];
      try discriminate.
    replace (Z.of_nat i + 1) with (Z.of_nat (S i)) in Hrec by lia.
    destruct (IH (S i) g1 Hrec) as [Hkeep Hnew].
    apply calcRegisters_Some in Hc
      as (c & N0' & N1' & ? & ? & ? & Hcnt & E0 & E1 & _ & _ & _ & ->).
    pose proof (load_store_eq _ _ _ _ E0) as L0.
    pose proof (load_store_eq _ _ _ _ E1) as L1.
    rewrite load_nat in L0, L1, Hf0.
    apply store_Some in E0 as [_ ->]. apply store_Some in E1 as [_ ->].
    cbn [N0 N1] in Hkeep. rewrite Nat2Z.id in *.
    split.
    + intros j Hj. destruct (Hkeep j ltac:(lia)) as [-> ->].
      rewrite !list_lookup_insert_ne by lia. auto.
    + intros j f Hj Hf. destruct (Nat.eq_dec j i) as [-> | Hne].
      * destruct (Hkeep i ltac:(lia)) as [-> ->].
        assert (f = f0) by congruence. subst f0.
        exists c. auto.
      * apply (Hnew j f); [lia | exact Hf].
Qed.

End SetupMore.

Import SetupMore.

(** X8. The report "RCounter changed during sweep" is never printed: the
    reference word depends on the reference and comparison frequency
    only, and these are constants of the sketch.  Whenever [setup] halts,
    started in whatever state, it has printed the function latch report. *)
Theorem X8_RCounter_report_unreachable
    (g0 : Globals) (freqs : list Z) (tr : list Event) :
  setup_from g0 freqs = (tr, Halted) ->
  tr = [DDRD_or B11000000; PORTD_write B00000000; Serial_begin 9600;
        Serial_println FunctionLatch_message].
Proof.
  unfold setup_from.
  destruct (populate freqs (length freqs) 0 g0) as [tr' o] eqn:E.
  destruct o; intros H; inversion H; subst.
  rewrite (populate_never_RCounter _ _ _ _ _ (or_introl eq_refl) E).
  reflexivity.
Qed.

Lemma X8_RCounter_report_unreachable_witness :
  fst (setup freqVec)
  = [DDRD_or B11000000; PORTD_write B00000000; Serial_begin 9600;
     Serial_println FunctionLatch_message].
Proof.
  apply (X8_RCounter_report_unreachable (initial (length freqVec)) freqVec).
  vm_compute. reflexivity.
Defined.

(** X9. Started as the program starts it, on the zero-initialised globals,
    the sketch never reaches the bus with a non-empty frequency vector
    whose first entry is a positive [int]: [setup] halts at the first step
    with the function latch report, and the run is that report followed
    by [delay(1)] for ever. *)
Theorem X9_nonempty_sweep_halts (f : Z) (freqs : list Z) (n : nat) :
  1 <= f <= INT_MAX ->
  run (f :: freqs) n
  = Some ([DDRD_or B11000000; PORTD_write B00000000; Serial_begin 9600;
           Serial_println FunctionLatch_message] ++ replicate n (delay 1))
  /\ existsb bus_output
       ([DDRD_or B11000000; PORTD_write B00000000; Serial_begin 9600;
         Serial_println FunctionLatch_message] ++ replicate n (delay 1))
     = false.
Proof.
  intros Hf. split.
  - assert (Hc : exists g1,
               calcRegisters (of_int f) (of_int RFInputFrequency)
                 (of_int PFDFrequency) 0 (initial (length (f :: freqs)))
               = Some g1).
    { eexists.
      eapply (calcRegisters_intro _ _ _ 0 _ _); [apply (counters_sketch f Hf) | ..];
        apply store_in_range; cbn [initial N0 N1 R0A R1A R2A length];
        rewrite length_replicate; lia. }
    destruct Hc as [g1 Hc].
    pose proof (guard_halts_at_first_step f freqs g1 Hc) as Hs.
    unfold run, run_from. unfold setup in Hs. rewrite Hs. reflexivity.
  - cbn [app existsb]. change (bus_output (DDRD_or B11000000)) with false.
    change (bus_output (PORTD_write B00000000)) with false.
    cbn [bus_output orb].
    induction n as [ | n IH]; [reflexivity | exact IH].
Qed.

Lemma X9_nonempty_sweep_halts_witness :
  run freqVec 3
  = Some ([DDRD_or B11000000; PORTD_write B00000000; Serial_begin 9600;
           Serial_println FunctionLatch_message] ++ replicate 3 (delay 1)).
Proof.
  refine (proj1 (X9_nonempty_sweep_halts 10415 (tail freqVec) 3 _)).
  unfold INT_MAX. lia.
Defined.

(** X10. When [setup] returns, the sweep table is in the order of the
    frequency vector: for every index [j], [N1[j]] and [N0[j]] are the
    middle and the low byte of the feedback word of [freqVec[j]]. *)
Theorem X10_table_in_frequency_order
    (g0 : Globals) (freqs : list Z) (tr : list Event) (g : Globals) :
  setup_from g0 freqs = (tr, Returned g) ->
  forall (j : nat) (f : Z),
    freqs !! j = Some f ->
    exists c,
      counters (of_int f) (of_int RFInputFrequency) (of_int PFDFrequency)
      = Some c
      /\ N1 g !! j = Some (lowByte (shr (word_N c) 8))
      /\ N0 g !! j = Some (lowByte (word_N c)).
Proof.
  intros H j f Hf. apply setup_Returned in H as [Hp _].
  change 0 with (Z.of_nat 0) in Hp.
  destruct (populate_table _ _ _ _ _ _ Hp) as [_ Hnew].
  apply (Hnew j f); [ | exact Hf].
  apply lookup_lt_Some in Hf. lia.
Qed.

Lemma X10_table_in_frequency_order_witness :
  let g0 := mkGlobals [0; 0] [0; 0] 0 0 0 0 [0; 0] [0; 0] [0; 0] 0 0 0
              [2; 2] [128; 128] [77; 77] in
  exists c,
    counters (of_int 10460) (of_int RFInputFrequency) (of_int PFDFrequency)
    = Some c
    /\ [130; 130] !! 1%nat = Some (lowByte (shr (word_N c) 8))
    /\ [13; 49] !! 1%nat = Some (lowByte (word_N c)).
Proof.
  intros g0.
  refine (X10_table_in_frequency_order g0 [10415; 10460] _
            (mkGlobals [13; 49] [130; 130] 0 145 1 64 [64; 64] [1; 1] [145; 145]
               77 128 2 [2; 2] [128; 128] [77; 77]) _ 1%nat 10460 _).
  - vm_compute. reflexivity.
  - reflexivity.
Defined.

(** ** More on the main loop *)

Module LoopMore.

Import AVR F32 Sketch SweepFacts.

Lemma sweep_defined (g : Globals) (k i : nat) :
  (exists l, sweep k (Z.of_nat i) g = Some l)
  <-> (k = 0%nat
       \/ ((i + k <= length (N1 g))%nat /\ (i + k <= length (N0 g))%nat)).
Proof.
  revert i. induction k as [ | k IH]; intros i.
  - split; [auto | intros _; exists []; reflexivity].
  - cbn [sweep]. rewrite !load_nat.
    replace (Z.of_nat i + 1) with (Z.of_nat (S i)) by lia.
    split.
    + intros (l & H).
      destruct (N1 g !! i) as [n1 | ] eqn:E1; [ | discriminate].
      destruct (N0 g !! i) as [n0 | ] eqn:E0; [ | discriminate].
      cbn [mbind option_bind] in H.
      destruct (sweep k (Z.of_nat (S i)) g) as [rest | ] eqn:Er; [ | discriminate].
      apply lookup_lt_Some in E1. apply lookup_lt_Some in E0.
      destruct (proj1 (IH (S i)) (ex_intro _ rest Er)) as [-> | [? ?]];
        right; lia.
    + intros [Hk | [H1 H0]]; [discriminate | ].
      destruct (lookup_lt_is_Some_2 (N1 g) i ltac:(lia)) as [n1 ->].
      destruct (lookup_lt_is_Some_2 (N0 g) i ltac:(lia)) as [n0 ->].
      cbn [mbind option_bind].
      destruct (proj2 (IH (S i))) as [rest ->].
      { destruct k; [left; reflexivity | right; lia]. }
      cbn [mbind option_bind]. eauto.
Qed.

Lemma elapsed_app (a b : list Event) :
  elapsed_us (a ++ b) = elapsed_us a + elapsed_us b.
Proof.
  unfold elapsed_us. induction a as [ | ev a IH]; simpl; [reflexivity | ].
  rewrite IH. lia.
Qed.

Lemma elapsed_SPIwrite (b2 b1 b0 : Z) (nf : bool) :
  elapsed_us (SPIwrite24bitRegister b2 b1 b0 nf) = DWELL_TIME.
Proof. destruct nf; reflexivity. Qed.

Lemma elapsed_calls (calls : list Call) :
  elapsed_us (flat_map transmit calls) = Z.of_nat (length calls) * DWELL_TIME.
Proof.
  induction calls as [ | [[[b2 b1] b0] nf] calls IH]; [reflexivity | ].
  cbn [flat_map transmit length]. rewrite elapsed_app, elapsed_SPIwrite, IH. lia.
Qed.

Lemma count_app (p : Event -> bool) (a b : list Event) :
  count p (a ++ b) = (count p a + count p b)%nat.
Proof. unfold count. rewrite List.filter_app, length_app. reflexivity. Qed.

Lemma count_SPIwrite (b2 b1 b0 : Z) (nf : bool) :
  count is_transfer (SPIwrite24bitRegister b2 b1 b0 nf) = 3%nat
  /\ count raises_LE (SPIwrite24bitRegister b2 b1 b0 nf) = 1%nat
  /\ count raises_SI (SPIwrite24bitRegister b2 b1 b0 nf)
     = (if nf then 1 else 0)%nat.
Proof. destruct nf; repeat split; reflexivity. Qed.

(** The transfers and pulses of the [for] loop of [loop]. *)
Lemma sweep_counts (g : Globals) (k : nat) (i : Z) (l : list Event) :
  0 <= i -> sweep k i g = Some l ->
  count is_transfer l = (3 * k)%nat
  /\ count raises_LE l = k
  /\ count raises_SI l
     = if (i =? 0) && negb (Nat.eqb k 0) then 1%nat else 0%nat.
Proof.
  revert i l. induction k as [ | k IH]; intros i l Hi H; cbn [sweep] in H.
  - inversion H. rewrite andb_false_r. repeat split.
  - destruct (load (N1 g) i) as [n1 | ]; [ | discriminate].
    destruct (load (N0 g) i) as [n0 | ]; [ | discriminate].
    cbn [mbind option_bind] in H.
    destruct (sweep k (i + 1) g) as [rest | ] eqn:Er; [ | discriminate].
    cbn [mbind option_bind] in H. inversion H; subst l; clear H.
    destruct (IH (i + 1) rest ltac:(lia) Er) as (T & L & Hsi).
    replace (i + 1 =? 0) with false in Hsi by (symmetry; apply Z.eqb_neq; lia).
    cbn [andb] in Hsi.
    assert (Hcall : forall nf,
              count is_transfer (SPIwrite24bitRegister (N2 g) n1 n0 nf ++ rest)
              = (3 * S k)%nat
              /\ count raises_LE (SPIwrite24bitRegister (N2 g) n1 n0 nf ++ rest)
                 = S k
              /\ count raises_SI (SPIwrite24bitRegister (N2 g) n1 n0 nf ++ rest)
                 = (if nf then 1 else 0)%nat).
    { intros nf. rewrite !count_app, T, L, Hsi.
      destruct (count_SPIwrite (N2 g) n1 n0 nf) as (-> & -> & ->).
      repeat split; try lia. }
    cbn [Nat.eqb negb]. rewrite andb_true_r.
    destruct (i =? 0); apply Hcall.
Qed.

End LoopMore.

Import LoopMore.

(** X11. When a call of [loop] stays inside its arrays: exactly when [N0]
    is not empty and [N1] is at least as long.  With an empty table the
    retransmission of the first word reads [N1[0]] and [N0[0]] outside the
    arrays. *)
Theorem X11_loop_defined (g : Globals) :
  (exists l, loop g = Some l)
  <-> (1 <= length (N0 g) <= length (N1 g))%nat.
Proof.
  unfold loop. split.
  - intros (l & H).
    destruct (sweep (length (N0 g)) 0 g) as [body | ] eqn:Es; [ | discriminate].
    cbn [mbind option_bind] in H.
    change 0 with (Z.of_nat 0) in H, Es. rewrite !load_nat in H.
    destruct (N1 g !! 0%nat) as [n1 | ] eqn:E1; [ | discriminate].
    destruct (N0 g !! 0%nat) as [n0 | ] eqn:E0; [ | discriminate].
    apply lookup_lt_Some in E1. apply lookup_lt_Some in E0.
    destruct (proj1 (sweep_defined g (length (N0 g)) 0) (ex_intro _ body Es))
      as [Hk | [? ?]]; lia.
  - intros [H0 H1].
    destruct (proj2 (sweep_defined g (length (N0 g)) 0)) as [body Es];
      [right; lia | ].
    change (Z.of_nat 0) with 0 in Es. rewrite Es. cbn [mbind option_bind].
    change 0 with (Z.of_nat 0). rewrite !load_nat.
    destruct (lookup_lt_is_Some_2 (N1 g) 0 ltac:(lia)) as [n1 ->].
    destruct (lookup_lt_is_Some_2 (N0 g) 0 ltac:(lia)) as [n0 ->].
    cbn [mbind option_bind]. eauto.
Qed.

(** X12. A pass takes the same time whatever the words: a call of [loop]
    on a table of N entries spends [(N + 1) * DWELL_TIME + SWEEP_PAUSE]
    microseconds in its delays. *)
Theorem X12_pass_duration (g : Globals) (l : list Event) :
  loop g = Some l ->
  elapsed_us l = (Z.of_nat (length (N0 g)) + 1) * DWELL_TIME + SWEEP_PAUSE.
Proof.
  unfold loop. intros H.
  destruct (sweep (length (N0 g)) 0 g) as [body | ] eqn:Es; [ | discriminate].
  cbn [mbind option_bind] in H.
  destruct (load (N1 g) 0) as [n1 | ]; [ | discriminate].
  destruct (load (N0 g) 0) as [n0 | ]; [ | discriminate].
  cbn [mbind option_bind] in H. injection H as <-.
  apply sweep_calls in Es as (calls & -> & Hlen & _).
  rewrite elapsed_app, elapsed_calls, Hlen.
  match goal with
  | |- _ + ?e = _ => change e with (DWELL_TIME + SWEEP_PAUSE)
  end.
  lia.
Qed.

Lemma X12_pass_duration_witness :
  let g := mkGlobals [13; 49] [130; 130] 0 145 1 64 [64; 64] [1; 1] [145; 145]
             77 128 2 [2; 2] [128; 128] [77; 77] in
  exists l, loop g = Some l /\ elapsed_us l = (2 + 1) * DWELL_TIME + SWEEP_PAUSE.
Proof.
  intros g. eexists. split; [vm_compute; reflexivity | ].
  apply (X12_pass_duration g). vm_compute. reflexivity.
Defined.

(** X13. In one call of [loop] on a table of N entries sync is raised
    exactly once, latch enable N + 1 times, and 3 * (N + 1) bytes are
    shifted out. *)
Theorem X13_pass_pulses (g : Globals) (l : list Event) :
  loop g = Some l ->
  count raises_SI l = 1%nat
  /\ count raises_LE l = S (length (N0 g))
  /\ count is_transfer l = (3 * S (length (N0 g)))%nat.
Proof.
  unfold loop. intros H.
  destruct (sweep (length (N0 g)) 0 g) as [body | ] eqn:Es; [ | discriminate].
  cbn [mbind option_bind] in H.
  destruct (load (N1 g) 0) as [n1 | ]; [ | discriminate].
  destruct (load (N0 g) 0) as [n0 | ] eqn:E0; [ | discriminate].
  cbn [mbind option_bind] in H. injection H as <-.
  change 0 with (Z.of_nat 0) in E0. rewrite load_nat in E0.
  apply lookup_lt_Some in E0.
  destruct (sweep_counts g _ 0 body ltac:(lia) Es) as (T & L & Hsi).
  destruct (length (N0 g)) as [ | n] eqn:En; [lia | ].
  cbn [Z.eqb Nat.eqb negb andb] in Hsi.
  rewrite !(count_app _ body), T, L, Hsi.
  split; [reflexivity | split].
  - match goal with |- (_ + ?e)%nat = _ => change e with 1%nat end. lia.
  - match goal with |- (_ + ?e)%nat = _ => change e with 3%nat end. lia.
Qed.

Lemma X13_pass_pulses_witness :
  let g := mkGlobals [13; 49] [130; 130] 0 145 1 64 [64; 64] [1; 1] [145; 145]
             77 128 2 [2; 2] [128; 128] [77; 77] in
  exists l,
    loop g = Some l
    /\ count raises_SI l = 1%nat /\ count raises_LE l = 3%nat
    /\ count is_transfer l = 9%nat.
Proof.
  intros g. eexists. split; [vm_compute; reflexivity | ].
  apply (X13_pass_pulses g). vm_compute. reflexivity.
Defined.

(** X14. The feedback word grows with the divide ratio: of two
    non-negative ratios the larger has the larger word, so different
    ratios never share a word. *)
Theorem X14_feedback_word_monotone
    (t r p t' r' p' : float) (c c' : Counters) :
  counters t r p = Some c -> counters t' r' p' = Some c' ->
  0 <= cN c -> cN c < cN c' ->
  word_N c < word_N c'.
Proof.
  intros Hc Hc' HN Hlt.
  destruct (counters_range _ _ _ _ Hc) as (_ & _ & HNr & HB & HA).
  destruct (counters_range _ _ _ _ Hc') as (_ & _ & HNr' & HB' & HA').
  unfold INT_MAX in *. rewrite Z.quot_div_nonneg in HB, HB' by lia.
  assert (Hb : 0 <= cB c < 2048) by (rewrite HB; Z.div_mod_to_equations; lia).
  assert (Hb' : 0 <= cB c' < 2048) by (rewrite HB'; Z.div_mod_to_equations; lia).
  assert (Ha : 0 <= cA c < 16) by (rewrite HA, HB; Z.div_mod_to_equations; lia).
  assert (Ha' : 0 <= cA c' < 16)
    by (rewrite HA', HB'; Z.div_mod_to_equations; lia).
  unfold word_N. change 0x1FFF with (Z.ones 13). change 0x3F with (Z.ones 6).
  rewrite !Z.land_ones by lia. rewrite !Z.mod_small by lia. lia.
Qed.

Lemma X14_feedback_word_monotone_witness :
  word_N (mkCounters 16 80 2083 130 3) < word_N (mkCounters 16 80 2092 130 12).
Proof.
  apply (X14_feedback_word_monotone (of_int 10415) (of_int 100) (of_int 1250)
           (of_int 10460) (of_int 100) (of_int 1250)).
  - vm_compute. reflexivity.
  - vm_compute. reflexivity.
  - simpl. lia.
  - simpl. lia.
Defined.

(** ** The precalculated variant *)

Module PrecalcFacts.

Import Sketch SweepFacts LoopMore.

Lemma precalculated_sweep_rest (n1s n0s p1 p0 l1 l0 : list Z) :
  n1s = p1 ++ l1 -> n0s = p0 ++ l0 ->
  length p1 = length p0 -> length l1 = length l0 -> (1 <= length p1)%nat ->
  Precalculated.sweep n1s n0s (length l1) (Z.of_nat (length p1))
  = Some (flat_map (fun w => Precalculated.transmit (w, false))
            (zip_with (fun n1 n0 => (Precalculated.N2, n1, n0)) l1 l0)).
Proof.
  revert p1 p0 l0. induction l1 as [ | a l1 IH]; intros p1 p0 l0 E1 E0 Hp Hl Hpos.
  - destruct l0; [reflexivity | discriminate].
  - destruct l0 as [ | b l0]; [discriminate | ]. simpl in Hl.
    cbn [length Precalculated.sweep].
    assert (H1 : n1s !! length p1 = Some a)
      by (rewrite E1; apply list_lookup_middle; reflexivity).
    assert (H0 : n0s !! length p1 = Some b)
      by (rewrite E0, Hp; apply list_lookup_middle; reflexivity).
    rewrite (load_nat n1s), (load_nat n0s), H1, H0.
    cbn [mbind option_bind].
    replace (Z.of_nat (length p1) + 1) with (Z.of_nat (length (p1 ++ [a])))
      by (rewrite length_app; simpl; lia).
    rewrite (IH (p1 ++ [a]) (p0 ++ [b]) l0).
    + cbn [mbind option_bind].
      replace (Z.of_nat (length p1) =? 0) with false
        by (symmetry; apply Z.eqb_neq; lia).
      reflexivity.
    + rewrite E1, <- app_assoc. reflexivity.
    + rewrite E0, <- app_assoc. reflexivity.
    + rewrite !length_app. simpl. lia.
    + lia.
    + rewrite length_app. lia.
Qed.

Lemma elapsed_transmits (calls : list Call) :
  elapsed_us (flat_map Precalculated.transmit calls)
  = Z.of_nat (length calls)
    * (Precalculated.LE_DURATION + Precalculated.TRANSMIT_DELAY).
Proof.
  induction calls as [ | [[[b2 b1] b0] nf] calls IH]; [reflexivity | ].
  cbn [flat_map Precalculated.transmit length]. rewrite elapsed_app, IH.
  replace (elapsed_us (Precalculated.SPIwrite24bitRegister b2 b1 b0 nf))
    with (Precalculated.LE_DURATION + Precalculated.TRANSMIT_DELAY)
    by (destruct nf; reflexivity).
  lia.
Qed.

End PrecalcFacts.

(** X15. The precalculated variant's [loop], over tables of equal length
    N: exactly N transmissions, the table entries in order with sync on
    the first only, and no second transmission of the first entry; an
    empty table gives the pause alone.  The pass lasts
    [N * (LE_DURATION + TRANSMIT_DELAY) + SWEEP_DELAY] microseconds: the
    transmitter waits the whole transmit delay after the pulse. *)
Theorem X15_precalculated_pass (n1s n0s : list Z) :
  length n1s = length n0s ->
  let calls :=
    Precalculated.pass
      (zip_with (fun n1 n0 => (Precalculated.N2, n1, n0)) n1s n0s) in
  Precalculated.loop_over n1s n0s
  = Some (flat_map Precalculated.transmit calls
          ++ [delayMicroseconds Precalculated.SWEEP_DELAY])
  /\ length calls = length n0s
  /\ elapsed_us (flat_map Precalculated.transmit calls
                 ++ [delayMicroseconds Precalculated.SWEEP_DELAY])
     = Z.of_nat (length n0s)
       * (Precalculated.LE_DURATION + Precalculated.TRANSMIT_DELAY)
       + Precalculated.SWEEP_DELAY.
Proof.
  intros Hlen calls.
  assert (Hcalls : length calls = length n0s).
  { subst calls. destruct n1s as [ | a l1], n0s as [ | b l0]; try discriminate;
      [reflexivity | ].
    cbn [zip_with Precalculated.pass length].
    rewrite length_map, length_zip_with. simpl in Hlen. lia. }
  split; [ | split; [exact Hcalls | ]].
  - unfold Precalculated.loop_over. subst calls.
    destruct n1s as [ | a l1], n0s as [ | b l0]; try discriminate;
      [reflexivity | ].
    simpl in Hlen. injection Hlen as Hlen.
    cbn [length Precalculated.sweep].
    change (load (a :: l1) 0) with (Some a).
    change (load (b :: l0) 0) with (Some b). cbn [mbind option_bind].
    rewrite <- Hlen. change (0 + 1) with (Z.of_nat (length [a])).
    rewrite (PrecalcFacts.precalculated_sweep_rest (a :: l1) (b :: l0) [a] [b] l1 l0
               eq_refl eq_refl eq_refl Hlen ltac:(simpl; lia)).
    cbn [mbind option_bind Z.eqb zip_with Precalculated.pass flat_map].
    f_equal. f_equal. f_equal.
    induction (zip_with _ l1 l0) as [ | w ws IHws]; [reflexivity | ].
    cbn [map flat_map]. rewrite IHws. reflexivity.
  - rewrite elapsed_app, PrecalcFacts.elapsed_transmits, Hcalls. reflexivity.
Qed.

Lemma X15_precalculated_pass_witness :
  exists l,
    Precalculated.loop = Some l
    /\ count is_transfer l = (3 * 26)%nat /\ count raises_SI l = 1%nat
    /\ elapsed_us l = 26 * 1500 + 0.
Proof.
  destruct (X15_precalculated_pass Precalculated.N1 Precalculated.N0 eq_refl)
    as (Hl & _ & Ht).
  eexists. split; [exact Hl | ].
  split; [reflexivity | split; [reflexivity | exact Ht]].
Defined.

(** X16. The two variants agree: entry [j] of the precalculated tables,
    and the precalculated R latch and function latch bytes, are what
    [calcRegisters] computes for [10500 + 100 * j] MHz with the reference
    and comparison frequency of the generating sketch. *)
Theorem X16_precalculated_tables_agree (j : nat) (f : Z) :
  Precalculated.frequencies !! j = Some f ->
  exists c w,
    counters (of_int f) (of_int RFInputFrequency) (of_int PFDFrequency) = Some c
    /\ words c = Some w
    /\ Precalculated.N1 !! j = Some (lowByte (shr (wN w) 8))
    /\ Precalculated.N0 !! j = Some (lowByte (wN w))
    /\ (Precalculated.R2, Precalculated.R1, Precalculated.R0)
       = (lowByte (shr (wR w) 16), lowByte (shr (wR w) 8), lowByte (wR w))
    /\ (Precalculated.F2, Precalculated.F1, Precalculated.F0)
       = (lowByte (shr (wF w) 16), lowByte (shr (wF w) 8), lowByte (wF w)).
Proof.
  intros Hf.
  do 26 (destruct j as [ | j];
         [injection Hf as <-; do 2 eexists;
          split; [vm_compute; reflexivity | ];
          split; [vm_compute; reflexivity | repeat split] | ]).
  discriminate Hf.
Qed.

Lemma X16_precalculated_tables_agree_witness :
  exists c w,
    counters (of_int 13000) (of_int RFInputFrequency) (of_int PFDFrequency)
    = Some c
    /\ words c = Some w
    /\ Precalculated.N1 !! 25%nat = Some (lowByte (shr (wN w) 8))
    /\ Precalculated.N0 !! 25%nat = Some (lowByte (wN w))
    /\ (Precalculated.R2, Precalculated.R1, Precalculated.R0)
       = (lowByte (shr (wR w) 16), lowByte (shr (wR w) 8), lowByte (wR w))
    /\ (Precalculated.F2, Precalculated.F1, Precalculated.F0)
       = (lowByte (shr (wF w) 16), lowByte (shr (wF w) 8), lowByte (wF w)).
Proof.
  apply (X16_precalculated_tables_agree 25 13000). reflexivity.
Defined.
